(** * microactor: transport adapters, the selecting reactor and the file subsystem

    A shallow embedding of
      - [microactor/utils/transports.py]   (CodecTransport, BufferedTransport,
        BoundTransport, PacketTransport),
      - [microactor/reactors/selecting.py] (fd registration),
      - [microactor/reactors/posix/subsystems/files.py] (mode translation),
    and the properties of these that the specification states.

    Python byte strings ([str] of Python 2) are lists of bytes, Python integers
    are [Z], [len] is [Z.of_nat (length _)].  A method that mutates [self] is a
    function from the object's state to an outcome and the new state; an
    exception leaves the mutations made before it in place, as in Python. *)

From Stdlib Require Import ZArith Lia Bool.
From Stdlib Require Import Strings.Byte Strings.String.
From stdpp Require Import base list gmap.

Local Open Scope Z_scope.

(** ** Byte strings *)

Abbreviation bytes := (list byte).

Definition len {A} (l : list A) : Z := Z.of_nat (length l).

(** The literal of a byte string, written as a Rocq string. *)
Abbreviation str s := (list_byte_of_string s).

(** [not data]: Python's truth value of a string is its non-emptiness. *)
Definition is_empty {A} (l : list A) : bool :=
  match l with [] => true | _ :: _ => false end.

(** ** Exceptions and outcomes *)

Inductive exn :=
| TransportClosed
| EOFError (args : option bytes)
| PacketTooLong (length max_length : Z)
| struct_error
| ValueError
| UnicodeError
| ReactorError.

(** [OutOfFuel] is not a Python outcome: it marks a [while True] loop of the
    model that was cut off; the theorems show where it cannot occur. *)
Inductive outcome (A : Type) :=
| Ret (a : A)
| Raise (e : exn)
| OutOfFuel.
Arguments Ret {A} a.
Arguments Raise {A} e.
Arguments OutOfFuel {A}.

(** ** Sequencing of asynchronous steps

    Modelled from the spec: the step driver ([reactive] and [rreturn] of
    [microactor/utils/deferred.py], which is not under src/).  A [yield d]
    resumes the producer with the value of [d] or injects its error at the
    yield point, and [rreturn v] completes the producer with [v]; a method is
    therefore a state transformer with an outcome, and [yield] is [bind]. *)

Definition M (S A : Type) : Type := S -> outcome A * S.

Definition ret {S A} (a : A) : M S A := fun s => (Ret a, s).
Definition raise {S A} (e : exn) : M S A := fun s => (Raise e, s).
Definition out_of_fuel {S A} : M S A := fun s => (OutOfFuel, s).
Definition get {S} : M S S := fun s => (Ret s, s).
Definition put {S} (s : S) : M S unit := fun _ => (Ret tt, s).
Definition modify {S} (f : S -> S) : M S unit := fun s => (Ret tt, f s).

Definition bind {S A B} (m : M S A) (k : A -> M S B) : M S B :=
  fun s =>
    match m s with
    | (Ret a, s') => k a s'
    | (Raise e, s') => (Raise e, s')
    | (OutOfFuel, s') => (OutOfFuel, s')
    end.

Notation "'let*' x ':=' m 'in' k" := (bind m (fun x => k))
  (at level 10, x pattern, m at level 100, k at level 200).
Notation "m '>>' k" := (bind m (fun _ => k))
  (at level 90, right associativity).

(** [try: m except TransportClosed: <None>] *)
Definition except_TransportClosed {S A} (m : M S A) : M S (option A) :=
  fun s =>
    match m s with
    | (Ret a, s') => (Ret (Some a), s')
    | (Raise TransportClosed, s') => (Ret None, s')
    | (Raise e, s') => (Raise e, s')
    | (OutOfFuel, s') => (OutOfFuel, s')
    end.

(** ** The transport contract

    What an adapter uses of the transport it wraps: its [read], its [write],
    and its [flush] when the object has that attribute ([hasattr]). *)

Class Transport (T : Type) := {
  transport_read : Z -> M T bytes;
  transport_write : bytes -> M T unit;
  transport_flush : option (M T unit);
}.

(** ** A scripted base transport

    Modelled from the spec: the base transport
    ([microactor/reactors/transports], which is not under src/).  [read(count)]
    returns up to [count] bytes, a zero-length result only at EOF, and all that
    is available when [count] is negative; [write] hands all bytes to the OS; a
    closed transport raises [TransportClosed].  [incoming] lists the chunks
    that the successive readiness events deliver, [wire] the bytes written. *)

Module RawTransport.

Record t := mk {
  incoming : list bytes;
  wire : bytes;
  closed : bool;
}.

Definition read (count : Z) : M t bytes := fun s =>
  if closed s then (Raise TransportClosed, s)
  else match incoming s with
       | [] => (Ret [], s)
       | c :: rest =>
         if (0 <=? count) && (count <? len c)
         then (Ret (take (Z.to_nat count) c),
               mk (drop (Z.to_nat count) c :: rest) (wire s) (closed s))
         else (Ret c, mk rest (wire s) (closed s))
       end.

Definition write (data : bytes) : M t unit := fun s =>
  if closed s then (Raise TransportClosed, s)
  else (Ret tt, mk (incoming s) (wire s ++ data) (closed s)).

Definition close : M t unit := fun s =>
  (Ret tt, mk (incoming s) (wire s) true).

End RawTransport.

#[export] Instance RawTransport_Transport : Transport RawTransport.t := {
  transport_read := RawTransport.read;
  transport_write := RawTransport.write;
  transport_flush := None;
}.

(** [close], which the adapters forward to the transport they wrap. *)
Class TransportClose (T : Type) := {
  transport_close : M T unit;
}.

#[export] Instance RawTransport_TransportClose : TransportClose RawTransport.t := {
  transport_close := RawTransport.close;
}.

(** ** BufferedTransport *)

Module BufferedTransport.
Section Buffered.

Context {T : Type} `{Transport T}.

(** The iterations allowed to the two [while True] loops ([read_all],
    [read_until]), whose length depends on the inner transport. *)
Variable fuel : nat.

Record t := mk {
  transport : T;
  _rbufsize : Z;
  _wbufsize : Z;
  _rbuf : bytes;
  _wbuf : bytes;
}.

Definition __init__ (transport : T) (read_buffer_size write_buffer_size : Z) : t :=
  mk transport read_buffer_size write_buffer_size [] [].

Definition set_transport (x : T) (s : t) : t :=
  mk x (_rbufsize s) (_wbufsize s) (_rbuf s) (_wbuf s).
Definition set_rbuf (x : bytes) (s : t) : t :=
  mk (transport s) (_rbufsize s) (_wbufsize s) x (_wbuf s).
Definition set_wbuf (x : bytes) (s : t) : t :=
  mk (transport s) (_rbufsize s) (_wbufsize s) (_rbuf s) x.

(** [yield self.transport.<method>(...)] *)
Definition on_transport {A} (m : M T A) : M t A := fun s =>
  let (r, x) := m (transport s) in (r, set_transport x s).

(** The loop of [_fill_rbuf]; [n] bounds its iterations. *)
Fixpoint _fill_rbuf_loop (n : nat) (count : Z) : M t bool :=
  match n with
  | O => out_of_fuel
  | S n' =>
    if 0 <? count then
      let* data := except_TransportClosed (on_transport (transport_read count)) in
      match data with
      | None | Some [] => ret true
      | Some data =>
        modify (fun s => set_rbuf (_rbuf s ++ data) s) >>
        if len data <? count then ret false
        else _fill_rbuf_loop n' (count - len data)
      end
    else ret false
  end.

(** Two iterations always suffice, see [_fill_rbuf_loop_fuel]. *)
Definition _fill_rbuf (count : Z) : M t bool := _fill_rbuf_loop 2 count.

Fixpoint read_all_loop (n : nat) (chunk : Z) (chunks : list bytes) : M t bytes :=
  match n with
  | O => out_of_fuel
  | S n' =>
    let* data := on_transport (transport_read chunk) in
    if is_empty data then ret (concat chunks)
    else read_all_loop n' chunk (chunks ++ [data])
  end.

Definition read_all (chunk : Z) : M t bytes :=
  let* s := get in
  put (set_rbuf [] s) >>
  read_all_loop fuel chunk [_rbuf s].

Definition read (count : Z) : M t bytes :=
  if count <? 0 then read_all 16000
  else
    let* s := get in
    (if len (_rbuf s) <? count
     then let* _ := _fill_rbuf (_rbufsize s - len (_rbuf s)) in ret tt
     else ret tt) >>
    let* s := get in
    let data := take (Z.to_nat count) (_rbuf s) in
    put (set_rbuf (drop (Z.to_nat count) (_rbuf s)) s) >>
    ret data.

(** The loop of [read_exactly]; it returns [count] and [buffer] as they are
    when the loop is left. *)
Fixpoint read_exactly_loop (n : nat) (count : Z) (buffer : list bytes)
  : M t (Z * list bytes) :=
  match n with
  | O => out_of_fuel
  | S n' =>
    if 0 <? count then
      let* data := read count in
      if is_empty data then ret (count, buffer)
      else read_exactly_loop n' (count - len data) (buffer ++ [data])
    else ret (count, buffer)
  end.

(** Every iteration but the last takes at least one byte off [count], so
    [count + 1] iterations are enough. *)
Definition read_exactly (count : Z) (raise_on_eof : bool) : M t bytes :=
  let* r := read_exactly_loop (S (Z.to_nat count)) count [] in
  let (count', buffer) := r : Z * list bytes in
  let data := concat buffer in
  if raise_on_eof && (0 <? count') then raise (EOFError (Some data))
  else ret data.

(** [s.startswith(pat)] *)
Fixpoint startswith (s pat : bytes) : bool :=
  match pat, s with
  | [], _ => true
  | _ :: _, [] => false
  | p :: pat', c :: s' => Byte.eqb p c && startswith s' pat'
  end.

(** The lowest index of an occurrence of [pat] in [s], where [s] is the
    part of the string that starts at index [i]; -1 when there is none. *)
Fixpoint find_at (s pat : bytes) (i : Z) : Z :=
  if startswith s pat then i
  else match s with
       | [] => -1
       | _ :: s' => find_at s' pat (i + 1)
       end.

(** [s.find(pat, start)]: a negative [start] counts from the end and is
    clipped at 0, as for slices. *)
Definition find (s pat : bytes) (start : Z) : Z :=
  let start := if start <? 0 then Z.max 0 (start + len s) else start in
  if len s <? start then -1
  else find_at (drop (Z.to_nat start) s) pat start.

(** [for pat in patterns: ind = rbuf.find(pat, last_index); if ind >= 0: ...]:
    the first pattern of the list that is found, with its index. *)
Fixpoint first_found (patterns : list bytes) (rbuf : bytes) (last_index : Z)
  : option (Z * bytes) :=
  match patterns with
  | [] => None
  | pat :: patterns' =>
    let ind := find rbuf pat last_index in
    if 0 <=? ind then Some (ind, pat)
    else first_found patterns' rbuf last_index
  end.

Fixpoint read_until_loop (n : nat) (patterns : list bytes) (longest_pattern : Z)
  (raise_on_eof include_pattern : bool) (eof : bool) (last_index : Z) : M t bytes :=
  match n with
  | O => out_of_fuel
  | S n' =>
    let* s := get in
    match first_found patterns (_rbuf s) last_index with
    | Some (ind, pat) =>
      let data :=
        if include_pattern then take (Z.to_nat (ind + len pat)) (_rbuf s)
        else take (Z.to_nat ind) (_rbuf s) in
      put (set_rbuf (drop (Z.to_nat (ind + len pat)) (_rbuf s)) s) >>
      ret data
    | None =>
      if eof then
        if raise_on_eof then raise (EOFError None)
        else put (set_rbuf [] s) >> ret (_rbuf s)
      else
        let* eof := _fill_rbuf (_rbufsize s) in
        let* s := get in
        read_until_loop n' patterns longest_pattern raise_on_eof include_pattern
          eof (len (_rbuf s) - longest_pattern)
    end
  end.

(** [max(len(p) for p in patterns)]; [max] of an empty sequence raises. *)
Definition max_len (patterns : list bytes) : option Z :=
  match patterns with
  | [] => None
  | p :: ps => Some (foldl (fun m q => Z.max m (len q)) (len p) ps)
  end.

(** A single string is passed as the list of that string. *)
Definition read_until (patterns : list bytes) (raise_on_eof include_pattern : bool)
  : M t bytes :=
  match max_len patterns with
  | None => raise ValueError
  | Some longest_pattern =>
    read_until_loop fuel patterns longest_pattern raise_on_eof include_pattern
      false 0
  end.

Definition read_line (include_newline : bool) : M t bytes :=
  read_until [[x0d; x0a]; [x0d]; [x0a]] false include_newline.

Definition flush : M t unit :=
  let* s := get in
  let data := _wbuf s in
  put (set_wbuf [] s) >>
  on_transport (transport_write data) >>
  match transport_flush with
  | Some inner_flush => on_transport inner_flush
  | None => ret tt
  end.

Definition write (data : bytes) : M t unit :=
  modify (fun s => set_wbuf (_wbuf s ++ data) s) >>
  let* s := get in
  if _wbufsize s <? len (_wbuf s) then flush else ret tt.

Context `{TransportClose T}.

(** [writable] is the test ["writable" in self.properties], on the
    capabilities that the adapter has copied from its transport. *)
Definition close (writable : bool) : M t unit :=
  (if writable then flush else ret tt) >>
  on_transport transport_close.

End Buffered.
Arguments t T : clear implicits.
End BufferedTransport.

(** A buffered transport is a transport: adapters stack.  The instance is
    chosen by hand, since it takes the fuel of the buffered [read]. *)
Definition BufferedTransport_Transport (fuel : nat) {T} `{Transport T}
  : Transport (BufferedTransport.t T) := {|
  transport_read := BufferedTransport.read fuel;
  transport_write := BufferedTransport.write;
  transport_flush := Some BufferedTransport.flush;
|}.

Definition BufferedTransport_TransportClose (writable : bool) {T}
  `{Transport T} `{TransportClose T} : TransportClose (BufferedTransport.t T) := {|
  transport_close := BufferedTransport.close writable;
|}.

(** ** BoundTransport *)

Module BoundTransport.
Section Bound.

Context {T : Type} `{Transport T}.

(** A length of [None] is the unbounded quota. *)
Record t := mk {
  transport : T;
  _rlength : option Z;
  _wlength : option Z;
}.

Definition __init__ (transport : T) (read_length write_length : option Z) : t :=
  mk transport read_length write_length.

Definition set_transport (x : T) (s : t) : t := mk x (_rlength s) (_wlength s).
Definition set_rlength (x : option Z) (s : t) : t := mk (transport s) x (_wlength s).
Definition set_wlength (x : option Z) (s : t) : t := mk (transport s) (_rlength s) x.

Definition on_transport {A} (m : M T A) : M t A := fun s =>
  let (r, x) := m (transport s) in (r, set_transport x s).

Definition remaining_read (s : t) : option Z := _rlength s.
Definition remaining_write (s : t) : option Z := _wlength s.

Definition read (count : Z) : M t bytes :=
  let* s := get in
  match _rlength s with
  | None => on_transport (transport_read count)
  | Some rlength =>
    if rlength <=? 0 then ret []
    else
      let count := Z.min count rlength in
      let* data := on_transport (transport_read count) in
      modify (fun s => set_rlength (option_map (fun r => r - len data) (_rlength s)) s) >>
      ret data
  end.

Fixpoint skip_loop (n : nat) (count actually_read : Z) : M t Z :=
  match n with
  | O => out_of_fuel
  | S n' =>
    if 0 <? count then
      let* data := read count in
      if is_empty data then ret actually_read
      else skip_loop n' (count - len data) (actually_read + len data)
    else ret actually_read
  end.

(** [count = self._rlength] may make [count] the value [None], and
    [None > 0] is false in Python 2: the loop is not entered. *)
Definition skip (count : Z) : M t Z :=
  let* s := get in
  let count := if count <? 0 then _rlength s else Some count in
  match count with
  | None => ret 0
  | Some count => skip_loop (S (Z.to_nat count)) count 0
  end.

Definition write (data : bytes) : M t unit :=
  let* s := get in
  match _wlength s with
  | None => on_transport (transport_write data)
  | Some wlength =>
    if wlength <? len data then raise (EOFError None)
    else
      on_transport (transport_write data) >>
      modify (fun s => set_wlength (option_map (fun w => w - len data) (_wlength s)) s)
  end.

Context `{TransportClose T}.

(** [skip_on_close] and [close_underlying] are the two flags that
    [__init__] stores; [self.skip()] is [skip(-1)]. *)
Definition close (skip_on_close close_underlying : bool) : M t unit :=
  (if skip_on_close then let* _ := skip (-1) in ret tt else ret tt) >>
  if close_underlying then on_transport transport_close else ret tt.

End Bound.
Arguments t T : clear implicits.
End BoundTransport.

(** ** PacketTransport *)

Module PacketTransport.

(** [HEADER = Struct("!L")]: four bytes, unsigned, big-endian. *)
Module HEADER.

Definition size : Z := 4.

(** The byte of value [z mod 256]. *)
Definition byte_of_Z (z : Z) : byte :=
  match Byte.of_N (Z.to_N (z mod 256)) with
  | Some x => x
  | None => x00
  end.

Definition Z_of_byte (x : byte) : Z := Z.of_N (Byte.to_N x).

(** [pack] raises [struct.error] outside of [0 .. 2^32 - 1]; the most
    significant byte comes first. *)
Definition pack (n : Z) : option bytes :=
  if (0 <=? n) && (n <? 2 ^ 32)
  then Some [byte_of_Z (n / 2 ^ 24); byte_of_Z (n / 2 ^ 16);
             byte_of_Z (n / 2 ^ 8); byte_of_Z n]
  else None.

(** [unpack] raises [struct.error] unless it is given four bytes. *)
Definition unpack (header : bytes) : option Z :=
  match header with
  | [b3; b2; b1; b0] =>
    Some (((Z_of_byte b3 * 256 + Z_of_byte b2) * 256 + Z_of_byte b1) * 256
          + Z_of_byte b0)
  | _ => None
  end.

End HEADER.

Section Packet.

Context {T : Type} `{Transport T}.
Variable fuel : nat.

Record t := mk {
  transport : BufferedTransport.t T;
  max_length : Z;
}.

Definition set_transport (x : BufferedTransport.t T) (s : t) : t :=
  mk x (max_length s).

Definition on_transport {A} (m : M (BufferedTransport.t T) A) : M t A := fun s =>
  let (r, x) := m (transport s) in (r, set_transport x s).

Definition recv : M t bytes :=
  let* header := on_transport (BufferedTransport.read_exactly fuel HEADER.size true) in
  match HEADER.unpack header with
  | None => raise struct_error
  | Some length =>
    let* s := get in
    if (0 <? max_length s) && (max_length s <? length)
    then raise (PacketTooLong length (max_length s))
    else
      let* data := on_transport (BufferedTransport.read_exactly fuel length true) in
      ret data
  end.

Definition send (data : bytes) (flush : bool) : M t unit :=
  match HEADER.pack (len data) with
  | None => raise struct_error
  | Some header =>
    on_transport (BufferedTransport.write header) >>
    on_transport (BufferedTransport.write data) >>
    if flush then on_transport BufferedTransport.flush else ret tt
  end.

End Packet.
Arguments t T : clear implicits.
End PacketTransport.

(** ** CodecTransport *)

(** The incremental coders of Python's [codecs]: [decode(input, final)] and
    [encode(input, final)], each with a state of its own. *)
Class IncrementalDecoder (D text : Type) := {
  decode : bytes -> bool -> M D text;
}.
Class IncrementalEncoder (E text : Type) := {
  encode : text -> bool -> M E bytes;
}.

Module CodecTransport.
Section Codec.

Context {T : Type} `{Transport T}.
Context {D E text : Type} `{IncrementalDecoder D text} `{IncrementalEncoder E text}.

Record t := mk {
  transport : T;
  encoder : E;
  decoder : D;
}.

Definition on_transport {A} (m : M T A) : M t A := fun s =>
  let (r, x) := m (transport s) in (r, mk x (encoder s) (decoder s)).
Definition on_decoder {A} (m : M D A) : M t A := fun s =>
  let (r, x) := m (decoder s) in (r, mk (transport s) (encoder s) x).
Definition on_encoder {A} (m : M E A) : M t A := fun s =>
  let (r, x) := m (encoder s) in (r, mk (transport s) x (decoder s)).

(** The two branches of [read]; [raw] is the Python value that the inner
    read resolved to, [None] or a string. *)
Definition decode_raw (raw : option bytes) : M t text :=
  match raw with
  | None => on_decoder (decode [] true)
  | Some raw => on_decoder (decode raw false)
  end.

(** The inner [read] of the transport contract resolves to a string. *)
Definition read (count : Z) : M t text :=
  let* raw := on_transport (transport_read count) in
  decode_raw (Some raw).

Definition write (data : text) : M t unit :=
  let* raw := on_encoder (encode data false) in
  if is_empty raw then ret tt else on_transport (transport_write raw).

End Codec.
Arguments t T D E : clear implicits.
End CodecTransport.

(** A decoder that records the calls made on it, to observe how an adapter
    drives its decoder: the state is the list of [(input, final)] so far. *)
Module CallLog.
Definition t : Type := list (bytes * bool).
Definition decode (input : bytes) (final : bool) : M t bytes :=
  modify (fun calls => calls ++ [(input, final)]) >> ret input.
Definition finalized (calls : t) : bool := existsb snd calls.
End CallLog.

#[export] Instance CallLog_Decoder : IncrementalDecoder CallLog.t bytes := {
  decode := CallLog.decode;
}.
#[export] Instance CallLog_Encoder : IncrementalEncoder unit bytes := {
  encode := fun data _ => ret data;
}.

(** ** SelectingReactor: fd registration *)

Module SelectingReactor.

(** A transport object as the reactor sees it: its identity (what [is]
    compares) and the descriptor its [fileno()] returns. *)
Record transport := mk_transport {
  id : positive;
  fileno : Z;
}.

(** The maps hold references to transport objects. *)
Record t := mk {
  _read_transports : gmap Z positive;
  _write_transports : gmap Z positive;
}.

Definition __init__ : t := mk ∅ ∅.

(** [fd in transports and transports[fd] is not transport] *)
Definition occupied_by_other (transports : gmap Z positive) (fd : Z) (trns : transport)
  : bool :=
  match transports !! fd with
  | Some other => negb (Pos.eqb other (id trns))
  | None => false
  end.

Definition register_read (trns : transport) : M t unit := fun s =>
  let fd := fileno trns in
  if occupied_by_other (_read_transports s) fd trns
  then (Raise ReactorError, s)
  else (Ret tt, mk (<[fd := id trns]> (_read_transports s)) (_write_transports s)).

Definition register_write (trns : transport) : M t unit := fun s =>
  let fd := fileno trns in
  if occupied_by_other (_write_transports s) fd trns
  then (Raise ReactorError, s)
  else (Ret tt, mk (_read_transports s) (<[fd := id trns]> (_write_transports s))).

Definition unregister_read (trns : transport) : M t unit := fun s =>
  (Ret tt, mk (delete (fileno trns) (_read_transports s)) (_write_transports s)).

Definition unregister_write (trns : transport) : M t unit := fun s =>
  (Ret tt, mk (_read_transports s) (delete (fileno trns) (_write_transports s))).

End SelectingReactor.

(** ** FilesSubsystem: the mode of an opened file *)

Module FilesSubsystem.

(** ["c" in mode] for a one-character string. *)
Definition contains (c : byte) (mode : bytes) : bool :=
  existsb (Byte.eqb c) mode.

(** The [mode2] that [opener] computes and hands to [FileTransport]. *)
Definition mode2 (mode : bytes) : bytes :=
  let mode2 := [] in
  let mode2 :=
    if contains "r" mode || contains "+" mode then mode2 ++ ["r"%byte] else mode2 in
  let mode2 :=
    if contains "a" mode || contains "+" mode then mode2 ++ ["w"%byte] else mode2 in
  mode2.

(** Modelled from the spec: [FileTransport] ([..transports.files], which is
    not under src/).  The capabilities of a file transport are those its
    mode names, ["r"] for readable and ["w"] for writable, as for the
    standard streams, which [_init] builds with the modes ["r"] and ["w"]. *)
Record FileTransport := mk_FileTransport {
  fileobj : bytes * bytes;
  readable : bool;
  writable : bool;
}.

Definition FileTransport__init__ (fileobj : bytes * bytes) (mode : bytes) : FileTransport :=
  mk_FileTransport fileobj (contains "r" mode) (contains "w" mode).

(** [opener]: [builtin_open] is Python's [open], which gives a file object
    (here the path and the mode it was opened with) or raises; its
    exception resolves the deferred through [throw]. *)
Definition open (builtin_open : bytes -> bytes -> outcome (bytes * bytes))
  (path mode : bytes) : outcome FileTransport :=
  match builtin_open path mode with
  | Ret fileobj => Ret (FileTransport__init__ fileobj (mode2 mode))
  | Raise ex => Raise ex
  | OutOfFuel => OutOfFuel
  end.

End FilesSubsystem.

(** * Properties *)

(** ** Transports of the scenarios, and what the statements speak of *)

Abbreviation buffered := (BufferedTransport.t RawTransport.t).

Definition raw_of (chunks : list bytes) : RawTransport.t :=
  RawTransport.mk chunks [] false.

Definition closed_raw : RawTransport.t := RawTransport.mk [] [] true.

(** A fresh buffered transport with the default buffer sizes. *)
Definition buffered_of (chunks : list bytes) : buffered :=
  BufferedTransport.__init__ (raw_of chunks) 16000 16000.

(** A buffered transport whose read buffer already holds [rbuf]. *)
Definition buffered_with (rbuf : bytes) (chunks : list bytes) : buffered :=
  BufferedTransport.set_rbuf rbuf (buffered_of chunks).

Definition packet_of (chunks : list bytes) (max_length : Z)
  : PacketTransport.t RawTransport.t :=
  PacketTransport.mk (buffered_of chunks) max_length.

Definition stdin_transport : SelectingReactor.transport :=
  SelectingReactor.mk_transport 1 0.

(** The inner transport is closed: each of its reads raises
    [TransportClosed] and leaves it as it is. *)
Definition inner_closed {T : Type} `{Transport T} (s : BufferedTransport.t T) : Prop :=
  forall count,
    transport_read count (BufferedTransport.transport s)
    = (Raise TransportClosed, BufferedTransport.transport s).

(** The statement of C6 for the buffered [read]: the [TransportClosed] of the
    inner transport reaches the caller. *)
Definition read_propagates_TransportClosed : Prop :=
  forall (fuel : nat) (count : Z) (s : buffered),
    inner_closed s ->
    fst (BufferedTransport.read fuel count s) = Raise TransportClosed.

(** The bytes that a buffered transport has yet to deliver: its read buffer,
    then what the inner transport will deliver. *)
Definition stream (s : buffered) : bytes :=
  BufferedTransport._rbuf s
  ++ concat (RawTransport.incoming (BufferedTransport.transport s)).

(** The inner transport is open and each of its reads before EOF delivers at
    least one byte; the buffer size is positive. *)
Definition well_formed (s : buffered) : Prop :=
  RawTransport.closed (BufferedTransport.transport s) = false
  /\ Forall (fun c => c <> []) (RawTransport.incoming (BufferedTransport.transport s))
  /\ 0 < BufferedTransport._rbufsize s.

(** The bytes handed to a buffered transport for writing: those on the
    wire, then those in its write buffer. *)
Definition emitted (s : buffered) : bytes :=
  RawTransport.wire (BufferedTransport.transport s) ++ BufferedTransport._wbuf s.

Definition open_for_writing (s : buffered) : Prop :=
  RawTransport.closed (BufferedTransport.transport s) = false.

(** The bytes that [send(p)] adds to the byte stream of the sender: what is on
    the wire after it, less what had been written before it. *)
Definition sent (p : bytes) (sender : PacketTransport.t RawTransport.t) : bytes :=
  drop (length (emitted (PacketTransport.transport sender)))
    (RawTransport.wire (BufferedTransport.transport (PacketTransport.transport
       (snd (PacketTransport.send p true sender))))).

Definition is_PacketTooLong (o : outcome bytes) : Prop :=
  exists length max_length, o = Raise (PacketTooLong length max_length).

(** The statement of C1: any payload comes back, whatever the receiver. *)
Definition roundtrip_for_every_payload : Prop :=
  forall (fuel : nat) (sender receiver : PacketTransport.t RawTransport.t) (p : bytes),
    open_for_writing (PacketTransport.transport sender) ->
    well_formed (PacketTransport.transport receiver) ->
    stream (PacketTransport.transport receiver) = sent p sender ->
    fst (PacketTransport.recv fuel receiver) = Ret p.

(** [for x in l: f(x)], with the results in order; an exception ends it. *)
Fixpoint for_each {S A B} (f : A -> M S B) (l : list A) : M S (list B) :=
  match l with
  | [] => ret []
  | x :: l' =>
    let* y := f x in
    let* ys := for_each f l' in
    ret (y :: ys)
  end.

(** [pat] occurs in [s]. *)
Definition occurs (pat s : bytes) : Prop :=
  exists pre post, s = pre ++ pat ++ post.

(** The frame of a payload on the wire: the four bytes of its length, most
    significant first, then the payload. *)
Definition frame (p : bytes) : bytes :=
  [PacketTransport.HEADER.byte_of_Z (len p / 2 ^ 24);
   PacketTransport.HEADER.byte_of_Z (len p / 2 ^ 16);
   PacketTransport.HEADER.byte_of_Z (len p / 2 ^ 8);
   PacketTransport.HEADER.byte_of_Z (len p)] ++ p.

(** A bound transport over a buffered transport, whose [read] gets [fuel]
    for its [read_all]; [bound] has the scripted transport below. *)
Abbreviation bound := (BoundTransport.t buffered).

Definition bound_read {T : Type} `{Transport T} (fuel : nat)
  : Z -> M (BoundTransport.t (BufferedTransport.t T)) bytes :=
  @BoundTransport.read _ (BufferedTransport_Transport fuel).

Definition bound_skip (fuel : nat) : Z -> M bound Z :=
  @BoundTransport.skip _ (BufferedTransport_Transport fuel).

Definition bound_close (fuel : nat) (skip_on_close close_underlying : bool) : M bound unit :=
  @BoundTransport.close _ (BufferedTransport_Transport fuel)
    (BufferedTransport_TransportClose true) skip_on_close close_underlying.

(** ** Selecting reactor *)

Section Registration.
Import SelectingReactor.

Lemma occupied_by_other_spec transports fd trns :
  occupied_by_other transports fd trns = true <->
  exists other, transports !! fd = Some other /\ other <> id trns.
Proof.
  unfold occupied_by_other. destruct (transports !! fd) as [other|].
  - rewrite negb_true_iff, Pos.eqb_neq. split.
    + intros Hne. exists other. auto.
    + intros (o & Ho & Hne). congruence.
  - split; [discriminate|]. intros (o & Ho & _). discriminate.
Qed.

Lemma occupied_after_insert transports fd trns :
  occupied_by_other (<[fd := id trns]> transports) fd trns = false.
Proof.
  unfold occupied_by_other. rewrite lookup_insert_eq.
  now rewrite Pos.eqb_refl.
Qed.

(** C10. Once a transport is registered for a direction, registering the
    same transport object again for that direction returns normally and
    leaves the reactor's maps as they are; and a registration raises
    [ReactorError] exactly when the slot of its descriptor holds another
    transport object. *)
Theorem register_same_transport_twice (s s1 s2 : SelectingReactor.t) (trns : transport) :
  (register_read trns s = (Ret tt, s1) ->
     register_read trns s1 = (Ret tt, s1)
     /\ _read_transports s1 !! fileno trns = Some (id trns))
  /\ (register_write trns s = (Ret tt, s2) ->
     register_write trns s2 = (Ret tt, s2)
     /\ _write_transports s2 !! fileno trns = Some (id trns))
  /\ (fst (register_read trns s) = Raise ReactorError <->
      exists other, _read_transports s !! fileno trns = Some other /\ other <> id trns)
  /\ (fst (register_write trns s) = Raise ReactorError <->
      exists other, _write_transports s !! fileno trns = Some other /\ other <> id trns).
Proof.
  repeat split.
  - unfold register_read in *.
    destruct (occupied_by_other (_read_transports s) _ trns); [discriminate|].
    injection H as <-. cbn. rewrite occupied_after_insert.
    now rewrite insert_insert_eq.
  - unfold register_read in *.
    destruct (occupied_by_other (_read_transports s) _ trns); [discriminate|].
    injection H as <-. cbn. apply lookup_insert_eq.
  - unfold register_write in *.
    destruct (occupied_by_other (_write_transports s) _ trns); [discriminate|].
    injection H as <-. cbn. rewrite occupied_after_insert.
    now rewrite insert_insert_eq.
  - unfold register_write in *.
    destruct (occupied_by_other (_write_transports s) _ trns); [discriminate|].
    injection H as <-. cbn. apply lookup_insert_eq.
  - rewrite <- occupied_by_other_spec. unfold register_read.
    now destruct (occupied_by_other _ _ _).
  - rewrite <- occupied_by_other_spec. unfold register_read.
    intros ->. reflexivity.
  - rewrite <- occupied_by_other_spec. unfold register_write.
    now destruct (occupied_by_other _ _ _).
  - rewrite <- occupied_by_other_spec. unfold register_write.
    intros ->. reflexivity.
Qed.

End Registration.

Lemma register_same_transport_twice_witness :
  let s1 := SelectingReactor.mk {[ 0 := 1%positive ]} ∅ in
  let s2 := SelectingReactor.mk ∅ {[ 0 := 1%positive ]} in
  SelectingReactor.register_read stdin_transport s1 = (Ret tt, s1)
  /\ SelectingReactor.register_write stdin_transport s2 = (Ret tt, s2).
Proof.
  intros s1 s2.
  destruct (register_same_transport_twice SelectingReactor.__init__ s1 s2 stdin_transport)
    as (Hread & Hwrite & _).
  split.
  - apply Hread. reflexivity.
  - apply Hwrite. reflexivity.
Defined.

(** ** File subsystem *)

(** C8 (the code misses the mode character [w]). Opening a file with the mode
    ["w"] hands the empty mode to the file transport: the transport that
    [open] resolves to is neither readable nor writable. *)
Theorem open_mode_w_not_writable :
  FilesSubsystem.mode2 (str "w") = []
  /\ FilesSubsystem.open (fun path mode => Ret (path, mode)) (str "out.log") (str "w")
     = Ret (FilesSubsystem.mk_FileTransport (str "out.log", str "w") false false).
Proof. split; reflexivity. Qed.

(** X20. What the mode translation does compute: [r] or [+] gives readable,
    and only [a] or [+] gives writable. *)
Lemma open_capabilities builtin_open path mode fileobj :
  builtin_open path mode = Ret fileobj ->
  exists trns,
    FilesSubsystem.open builtin_open path mode = Ret trns
    /\ FilesSubsystem.readable trns
       = FilesSubsystem.contains "r" mode || FilesSubsystem.contains "+" mode
    /\ FilesSubsystem.writable trns
       = FilesSubsystem.contains "a" mode || FilesSubsystem.contains "+" mode.
Proof.
  intros Hopen. unfold FilesSubsystem.open. rewrite Hopen.
  eexists. split; [reflexivity|].
  unfold FilesSubsystem.FileTransport__init__, FilesSubsystem.mode2.
  cbn [FilesSubsystem.readable FilesSubsystem.writable].
  destruct (FilesSubsystem.contains "r" mode || FilesSubsystem.contains "+" mode);
    destruct (FilesSubsystem.contains "a" mode || FilesSubsystem.contains "+" mode);
    split; reflexivity.
Qed.

(** ** CodecTransport *)

Section CodecEOF.
Context {T : Type} `{Transport T}.
Context {D E text : Type} `{IncrementalDecoder D text} `{IncrementalEncoder E text}.

(** Whatever string the inner read resolves to, the empty one of EOF
    included, [read] calls the decoder on it with [final = False]. *)
Lemma read_never_final (count : Z) (s : CodecTransport.t T D E) raw x :
  transport_read count (CodecTransport.transport s) = (Ret raw, x) ->
  CodecTransport.read count s
  = CodecTransport.on_decoder (decode raw false)
      (CodecTransport.mk x (CodecTransport.encoder s) (CodecTransport.decoder s)).
Proof.
  intros Hread. unfold CodecTransport.read, bind, CodecTransport.on_transport.
  now rewrite Hread.
Qed.
End CodecEOF.

(** C9 (the code tests the inner result against [None], not against the empty
    string). The inner transport has delivered a lone byte and is at EOF. The
    first [read] passes the byte to the decoder; the second, which gets the
    zero-length result, calls [decode("", final=False)]: the decoder is never
    finalized. *)
Theorem codec_read_at_eof_not_final :
  let s0 : CodecTransport.t RawTransport.t CallLog.t unit :=
    CodecTransport.mk (raw_of [[xc3]]) tt [] in
  let s1 := snd (CodecTransport.read 10 s0) in
  let s2 := snd (CodecTransport.read 10 s1) in
  RawTransport.read 10 (CodecTransport.transport s1) = (Ret [], raw_of [])
  /\ CodecTransport.decoder s2 = [([xc3], false); ([], false)]
  /\ CallLog.finalized (CodecTransport.decoder s2) = false.
Proof. repeat split. Qed.

(** ** BufferedTransport: the two searches of [read_until] *)

(** C2 (the search position is taken from the buffer after the fill). The
    inner transport yields ["abXX"] and then ["YYcd"]. After the second fill
    the buffer is ["abXXYYcd"] and the search resumes at index 8 - 4 = 4,
    beyond the occurrence at index 2: [read_until] runs into EOF and returns
    the whole of ["abXXYYcd"], leaving nothing buffered. *)
Theorem read_until_straddling_missed (n : nat) :
  BufferedTransport.read_until (4 + n) [str "XXYY"] false false
    (buffered_of [str "abXX"; str "YYcd"])
  = (Ret (str "abXXYYcd"), buffered_of []).
Proof. reflexivity. Qed.

(** C3 (the first pattern of the list that occurs anywhere is taken). The
    buffer holds ["a\nb\rc"]. [read_line] looks for ["\r\n"], then for ["\r"],
    which it finds at index 3, and returns ["a\nb"] without looking for
    ["\n"], which occurs at index 1. *)
Theorem read_line_later_newline_taken (n : nat) :
  BufferedTransport.read_line (1 + n) false
    (buffered_with [x61; x0a; x62; x0d; x63] [])
  = (Ret [x61; x0a; x62], buffered_with [x63] []).
Proof. reflexivity. Qed.

(** On ["a\r\nb"] the pair is taken as one newline: ["\r\n"] is the first
    pattern of [read_line]'s list. *)
Lemma read_line_crlf (n : nat) :
  BufferedTransport.read_line (1 + n) false
    (buffered_with [x61; x0d; x0a; x62] [])
  = (Ret [x61], buffered_with [x62] []).
Proof. reflexivity. Qed.

(** ** BoundTransport *)

Section Quota.
Context {T : Type} `{Transport T}.
Import BoundTransport.

(** With a count that is not negative and an inner transport that returns no
    more bytes than it is asked for, [read] stays within the quota: it returns
    at most [min(count, remaining)] bytes and takes them off the quota. *)
Lemma bound_read_within_quota (count rlength : Z) (s : BoundTransport.t T) data x :
  _rlength s = Some rlength ->
  0 < rlength ->
  transport_read (Z.min count rlength) (transport s) = (Ret data, x) ->
  len data <= Z.min count rlength ->
  read count s = (Ret data, mk x (Some (rlength - len data)) (_wlength s))
  /\ 0 <= rlength - len data.
Proof.
  intros Hquota Hpos Hread Hlen. split; [|lia].
  unfold read, bind at 1, get. rewrite Hquota.
  destruct (Z.leb_spec rlength 0); [lia|].
  unfold bind, on_transport. rewrite Hread. cbn. now rewrite Hquota.
Qed.

(** With no quota left, [read] returns the empty string of EOF and leaves the
    inner transport alone. *)
Lemma bound_read_quota_exhausted (count rlength : Z) (s : BoundTransport.t T) :
  _rlength s = Some rlength ->
  rlength <= 0 ->
  read count s = (Ret [], s).
Proof.
  intros Hquota Hzero. unfold read, bind, get. rewrite Hquota.
  destruct (Z.leb_spec rlength 0); [reflexivity|lia].
Qed.

End Quota.

(** C4 ([read] passes a negative count on, where [skip] replaces it by the
    remaining quota). A bound transport with a read quota of 3 over a buffered
    transport whose stream holds ten bytes: [read(-1)] asks the inner
    transport for [min(-1, 3) = -1] bytes, that is for everything, returns
    all ten bytes and leaves a quota of -7. *)
Theorem bound_read_negative_count_exceeds_quota (n : nat) :
  let inner := BufferedTransport_Transport (2 + n) in
  @BoundTransport.read _ inner (-1)
    (BoundTransport.__init__ (buffered_of [str "abcdefghij"]) (Some 3) None)
  = (Ret (str "abcdefghij"),
     BoundTransport.__init__ (buffered_of []) (Some (-7)) None).
Proof. reflexivity. Qed.

(** ** BufferedTransport and a closed inner transport *)

Section ClosedInner.
Context {T : Type} `{Transport T}.
Import BufferedTransport.

Lemma set_transport_same (s : BufferedTransport.t T) : set_transport (transport s) s = s.
Proof. now destruct s. Qed.

(** [_fill_rbuf] never runs out of iterations: its loop is left in the first
    iteration, or enters the second with a count that is not positive. *)
Lemma _fill_rbuf_loop_fuel (n : nat) (count : Z) (s : BufferedTransport.t T) :
  _fill_rbuf_loop (S (S n)) count s = _fill_rbuf count s.
Proof.
  unfold _fill_rbuf. cbn [_fill_rbuf_loop].
  destruct (0 <? count); [|reflexivity].
  unfold bind.
  destruct (except_TransportClosed (on_transport (transport_read count)) s)
    as [[[[|d data]|]|e|] s1]; try reflexivity.
  unfold modify.
  destruct (Z.ltb_spec (len (d :: data)) count) as [|Hge]; [reflexivity|].
  destruct (Z.ltb_spec 0 (count - len (d :: data))) as [|_]; [lia|reflexivity].
Qed.

Lemma _fill_rbuf_closed (s : BufferedTransport.t T) (count : Z) :
  inner_closed s ->
  _fill_rbuf count s = (Ret (0 <? count), s).
Proof.
  intros Hclosed. unfold _fill_rbuf. cbn [_fill_rbuf_loop].
  destruct (0 <? count); [|reflexivity].
  unfold bind, except_TransportClosed, on_transport.
  rewrite Hclosed, set_transport_same. reflexivity.
Qed.

(** C6, as amended. With a closed inner transport, a buffered [read] of a
    count that is not negative takes the [TransportClosed] of its fill for
    the end of the stream and returns normally, with the bytes it has
    buffered; a [read] of a negative count, which is [read_all], raises
    [TransportClosed]. *)
Theorem buffered_read_closed_inner (fuel : nat) (count : Z) (s : BufferedTransport.t T) :
  inner_closed s ->
  (0 <= count ->
   read fuel count s
   = (Ret (take (Z.to_nat count) (_rbuf s)),
      set_rbuf (drop (Z.to_nat count) (_rbuf s)) s))
  /\ (count < 0 ->
      read (S fuel) count s = (Raise TransportClosed, set_rbuf [] s)).
Proof.
  intros Hclosed. split; intros Hcount; unfold read.
  - destruct (Z.ltb_spec count 0) as [?|_]; [lia|].
    unfold bind at 1. unfold get at 1. unfold bind at 1.
    destruct (len (_rbuf s) <? count).
    + unfold bind at 1. rewrite _fill_rbuf_closed by assumption. reflexivity.
    + reflexivity.
  - destruct (Z.ltb_spec count 0) as [_|?]; [|lia].
    unfold read_all, bind, get, put. cbn [read_all_loop].
    unfold bind, on_transport. cbn [transport set_rbuf].
    rewrite Hclosed. reflexivity.
Qed.

End ClosedInner.

Lemma closed_raw_inner_closed rbuf :
  inner_closed (BufferedTransport.mk closed_raw 16000 16000 rbuf []).
Proof. intros count. reflexivity. Qed.

(** C6, counterexample: a buffered [read(1)] over a closed transport returns
    the empty string. *)
Lemma buffered_read_swallows_TransportClosed :
  BufferedTransport.read 0 1 (BufferedTransport.mk closed_raw 16000 16000 [] [])
  = (Ret [], BufferedTransport.mk closed_raw 16000 16000 [] [])
  /\ ~ read_propagates_TransportClosed.
Proof.
  split; [reflexivity|].
  intros Hclaim.
  specialize (Hclaim 0%nat 1 _ (closed_raw_inner_closed [])).
  discriminate Hclaim.
Qed.

Lemma buffered_read_closed_inner_witness :
  let s := BufferedTransport.mk closed_raw 16000 16000 (str "xyz") [] in
  BufferedTransport.read 0 2 s
  = (Ret (str "xy"), BufferedTransport.mk closed_raw 16000 16000 (str "z") [])
  /\ BufferedTransport.read 1 (-1) s
     = (Raise TransportClosed, BufferedTransport.mk closed_raw 16000 16000 [] []).
Proof.
  intros s.
  destruct (buffered_read_closed_inner 0 2 s (closed_raw_inner_closed _)) as [Hread _].
  destruct (buffered_read_closed_inner 0 (-1) s (closed_raw_inner_closed _)) as [_ Hall].
  split.
  - apply Hread. lia.
  - apply Hall. lia.
Defined.

(** ** BufferedTransport over a stream *)

Section Stream.
Import BufferedTransport.

Lemma len_nil {A} : len (@nil A) = 0.
Proof. reflexivity. Qed.

Lemma len_app {A} (l1 l2 : list A) : len (l1 ++ l2) = len l1 + len l2.
Proof. unfold len. rewrite length_app. lia. Qed.

Lemma len_nonneg {A} (l : list A) : 0 <= len l.
Proof. unfold len. lia. Qed.

Lemma len_pos {A} (l : list A) : l <> [] -> 0 < len l.
Proof. destruct l; [congruence|]. unfold len. cbn. lia. Qed.

Lemma is_empty_true {A} (l : list A) : is_empty l = true <-> l = [].
Proof. destruct l; cbn; split; congruence. Qed.

Lemma raw_read_spec (r : RawTransport.t) (count : Z) :
  RawTransport.closed r = false ->
  Forall (fun c => c <> []) (RawTransport.incoming r) ->
  0 < count ->
  exists data r',
    RawTransport.read count r = (Ret data, r')
    /\ concat (RawTransport.incoming r) = data ++ concat (RawTransport.incoming r')
    /\ RawTransport.closed r' = false
    /\ Forall (fun c => c <> []) (RawTransport.incoming r')
    /\ RawTransport.wire r' = RawTransport.wire r
    /\ len data <= count
    /\ (RawTransport.incoming r <> [] -> data <> []).
Proof.
  intros Hopen Hchunks Hcount. unfold RawTransport.read. rewrite Hopen.
  destruct r as [inc w cl]. cbn in *. destruct inc as [|c rest].
  - exists [], (RawTransport.mk [] w cl). cbn. rewrite len_nil.
    repeat split; auto. lia.
  - inversion Hchunks as [|? ? Hc Hrest]; subst.
    destruct (Z.leb_spec 0 count) as [_|?]; [|lia]. cbn [andb].
    destruct (Z.ltb_spec count (len c)) as [Hlt|Hge].
    + eexists _, _. split; [reflexivity|]. cbn.
      unfold len in *.
      repeat split; auto.
      * now rewrite app_assoc, take_drop.
      * constructor; [|assumption].
        intros Hnil. apply (f_equal length) in Hnil.
        rewrite length_drop in Hnil. cbn in Hnil. lia.
      * rewrite length_take. lia.
      * intros _ Hnil. apply (f_equal length) in Hnil.
        rewrite length_take in Hnil. cbn in Hnil. lia.
    + eexists _, _. split; [reflexivity|]. cbn. repeat split; auto.
Qed.

Lemma _fill_rbuf_spec (s : buffered) (count : Z) :
  well_formed s ->
  exists eof data s',
    _fill_rbuf count s = (Ret eof, s')
    /\ _rbuf s' = _rbuf s ++ data
    /\ stream s' = stream s
    /\ well_formed s'
    /\ _rbufsize s' = _rbufsize s
    /\ (0 < count -> stream s <> [] -> _rbuf s' <> []).
Proof.
  intros (Hopen & Hchunks & Hsize). unfold _fill_rbuf. cbn [_fill_rbuf_loop].
  destruct (Z.ltb_spec 0 count) as [Hcount|Hcount].
  - destruct (raw_read_spec (transport s) count Hopen Hchunks Hcount)
      as (data & r' & Hread & Hconcat & Hopen' & Hchunks' & _ & Hlen & Hdata).
    unfold bind at 1. unfold except_TransportClosed, on_transport.
    cbn [transport_read RawTransport_Transport]. rewrite Hread.
    destruct data as [|d data].
    + exists true, [], (set_transport r' s). cbn.
      assert (Hinc : RawTransport.incoming (transport s) = []).
      { destruct (RawTransport.incoming (transport s)); [reflexivity|].
        exfalso. now apply Hdata. }
      unfold stream, well_formed. cbn. rewrite app_nil_r, Hconcat.
      repeat split; auto.
      intros _ Hne Hnil. rewrite Hnil, <- Hconcat, Hinc in Hne. now apply Hne.
    + exists false, (d :: data), (set_rbuf (_rbuf s ++ d :: data) (set_transport r' s)).
      split.
      * unfold bind, modify. cbn [_rbuf set_transport].
        destruct (Z.ltb_spec (len (d :: data)) count) as [_|Hge]; [reflexivity|].
        destruct (Z.ltb_spec 0 (count - len (d :: data))) as [?|_]; [lia|reflexivity].
      * unfold stream, well_formed. cbn. rewrite Hconcat, <- app_assoc.
        repeat split; auto.
        intros _ _ Hnil. now apply app_eq_nil in Hnil as [_ ?].
  - exists false, [], s. rewrite app_nil_r. repeat split; auto. lia.
Qed.

Lemma read_spec (fuel : nat) (s : buffered) (count : Z) :
  well_formed s ->
  0 < count ->
  exists data s',
    read fuel count s = (Ret data, s')
    /\ stream s = data ++ stream s'
    /\ well_formed s'
    /\ len data <= count
    /\ (stream s <> [] -> data <> []).
Proof.
  intros Hwf Hcount. unfold read.
  destruct (Z.ltb_spec count 0) as [?|_]; [lia|].
  unfold bind at 1. unfold get at 1. unfold bind at 1.
  assert (Htake : forall s1 : buffered,
    _rbuf s1 <> [] \/ stream s = [] -> stream s1 = stream s -> well_formed s1 ->
    exists data s',
      (let* s2 := get in
       put (set_rbuf (drop (Z.to_nat count) (_rbuf s2)) s2) >>
       ret (take (Z.to_nat count) (_rbuf s2))) s1 = (Ret data, s')
      /\ stream s = data ++ stream s'
      /\ well_formed s'
      /\ len data <= count
      /\ (stream s <> [] -> data <> [])).
  { intros s1 Hne Hstream Hwf1. eexists _, _. split; [reflexivity|].
    unfold stream, well_formed in *. cbn.
    repeat split; try tauto.
    - rewrite <- Hstream, app_assoc, take_drop. reflexivity.
    - unfold len. rewrite length_take. lia.
    - intros Hs Hnil. destruct Hne as [Hne|Hs']; [|congruence].
      apply (f_equal length) in Hnil. rewrite length_take in Hnil. cbn in Hnil.
      destruct (_rbuf s1); [congruence|]. cbn in Hnil. lia. }
  destruct (Z.ltb_spec (len (_rbuf s)) count) as [Hshort|Hlong].
  - unfold bind at 1.
    destruct (_fill_rbuf_spec s (_rbufsize s - len (_rbuf s)) Hwf)
      as (eof & data & s1 & Hfill & Hrbuf & Hstream & Hwf1 & _ & Hne).
    rewrite Hfill. unfold ret at 1. apply Htake; auto.
    assert (Hs : stream s = [] \/ stream s <> [])
      by (destruct (stream s); [left|right]; congruence).
    destruct Hs as [Hs|Hs]; [now right|]. left.
    destruct (_rbuf s) as [|c rbuf] eqn:Hb.
    + apply Hne; [|assumption]. destruct Hwf as (_ & _ & ?). unfold len. cbn. lia.
    + rewrite Hrbuf. discriminate.
  - unfold ret at 1. apply Htake; auto.
    left. intros Hnil. rewrite Hnil in Hlong. unfold len in Hlong. cbn in Hlong. lia.
Qed.

Lemma read_exactly_loop_spec (fuel n : nat) :
  forall (count : Z) (buffer : list bytes) (s : buffered),
    well_formed s ->
    (Z.to_nat count < n)%nat ->
    exists buffer' s',
      read_exactly_loop fuel n count buffer s
      = (Ret (count - len (take (Z.to_nat count) (stream s)), buffer'), s')
      /\ concat buffer' = concat buffer ++ take (Z.to_nat count) (stream s)
      /\ stream s' = drop (Z.to_nat count) (stream s)
      /\ well_formed s'.
Proof.
  induction n as [|n IH]; intros count buffer s Hwf Hfuel; [lia|].
  cbn [read_exactly_loop].
  destruct (Z.ltb_spec 0 count) as [Hcount|Hcount].
  - destruct (read_spec fuel s count Hwf Hcount)
      as (data & s1 & Hread & Hstream & Hwf1 & Hlen & Hne).
    unfold bind at 1. rewrite Hread.
    destruct data as [|d data]; cbn [is_empty].
    + assert (Hs : stream s = []).
      { destruct (stream s); [reflexivity|]. exfalso. now apply Hne. }
      cbn in Hstream. exists buffer, s1.
      rewrite Hs, take_nil, drop_nil, app_nil_r.
      change (len (@nil byte)) with 0. rewrite Z.sub_0_r.
      split; [reflexivity|]. split; [reflexivity|]. split; [congruence|assumption].
    + destruct (IH (count - len (d :: data)) (buffer ++ [d :: data]) s1 Hwf1)
        as (buffer' & s' & Hloop & Hconcat & Hrest & Hwf').
      { unfold len in *. cbn [length] in *. lia. }
      exists buffer', s'. rewrite Hloop, Hconcat, Hrest, Hstream.
      assert (Hn : Z.to_nat (count - len (d :: data))
                   = (Z.to_nat count - length (d :: data))%nat)
        by (unfold len; lia).
      assert (Hle : (length (d :: data) <= Z.to_nat count)%nat)
        by (unfold len in Hlen; lia).
      rewrite Hn, (take_app_ge (d :: data)), (drop_app_ge (d :: data)) by exact Hle.
      split; [|split; [|split; [reflexivity|assumption]]].
      * rewrite len_app. do 3 f_equal. lia.
      * rewrite concat_app. cbn [concat]. now rewrite app_nil_r, <- app_assoc.
  - exists buffer, s. replace (Z.to_nat count) with 0%nat by lia.
    rewrite take_0, drop_0, app_nil_r. unfold ret.
    change (len (@nil byte)) with 0. rewrite Z.sub_0_r.
    split; [reflexivity|]. split; [reflexivity|]. split; [reflexivity|assumption].
Qed.

Lemma read_exactly_spec (fuel : nat) (count : Z) (raise_on_eof : bool) (s : buffered) :
  well_formed s ->
  exists s',
    read_exactly fuel count raise_on_eof s
    = (if raise_on_eof && (len (stream s) <? count)
       then Raise (EOFError (Some (stream s)))
       else Ret (take (Z.to_nat count) (stream s)), s')
    /\ stream s' = drop (Z.to_nat count) (stream s)
    /\ well_formed s'.
Proof.
  intros Hwf. unfold read_exactly.
  destruct (read_exactly_loop_spec fuel (S (Z.to_nat count)) count [] s Hwf)
    as (buffer & s' & Hloop & Hconcat & Hrest & Hwf'); [lia|].
  exists s'. unfold bind. rewrite Hloop, Hconcat. cbn [app].
  split; [|split; assumption].
  assert (Hshort : (0 <? count - len (take (Z.to_nat count) (stream s)))
                   = (len (stream s) <? count)).
  { unfold len. rewrite length_take.
    destruct (Z.ltb_spec (Z.of_nat (length (stream s))) count);
      destruct (Z.ltb_spec 0 (count - Z.of_nat (Z.to_nat count `min` length (stream s))));
      try reflexivity; lia. }
  rewrite Hshort.
  destruct raise_on_eof; cbn [andb]; [|reflexivity].
  destruct (Z.ltb_spec (len (stream s)) count) as [Hlt|Hge]; [|reflexivity].
  unfold raise. rewrite take_ge by (unfold len in Hlt; lia). reflexivity.
Qed.

(** C5. On a stream that holds at least [n] bytes, [read_exactly(n)] returns
    its first [n] bytes and leaves the stream at byte [n]; on a stream that
    ends before that, [read_exactly(n)] with [raise_on_eof] raises an
    [EOFError] that carries the bytes read, which are the whole stream. *)
Theorem read_exactly_stream (fuel : nat) (n : Z) (s : buffered) :
  well_formed s ->
  (n <= len (stream s) ->
   forall raise_on_eof, exists s',
     read_exactly fuel n raise_on_eof s = (Ret (take (Z.to_nat n) (stream s)), s')
     /\ stream s' = drop (Z.to_nat n) (stream s)
     /\ well_formed s')
  /\ (len (stream s) < n ->
      exists s',
        read_exactly fuel n true s = (Raise (EOFError (Some (stream s))), s')
        /\ stream s' = []).
Proof.
  intros Hwf. split.
  - intros Hn raise_on_eof.
    destruct (read_exactly_spec fuel n raise_on_eof s Hwf) as (s' & Hread & Hrest & Hwf').
    exists s'. split; [|split; assumption]. rewrite Hread.
    destruct (Z.ltb_spec (len (stream s)) n); [lia|].
    now rewrite andb_false_r.
  - intros Hn.
    destruct (read_exactly_spec fuel n true s Hwf) as (s' & Hread & Hrest & Hwf').
    exists s'. split.
    + rewrite Hread. destruct (Z.ltb_spec (len (stream s)) n); [reflexivity|lia].
    + rewrite Hrest. apply drop_ge. unfold len in Hn. lia.
Qed.

End Stream.

Lemma well_formed_buffered_of chunks :
  Forall (fun c => c <> []) chunks -> well_formed (buffered_of chunks).
Proof. intros Hchunks. split; [reflexivity|]. split; [exact Hchunks|reflexivity]. Qed.

Lemma read_exactly_stream_witness :
  let s := buffered_of [str "abXX"; str "YYcd"] in
  (exists s', BufferedTransport.read_exactly 0 3 true s = (Ret (str "abX"), s')
              /\ stream s' = str "XYYcd")
  /\ (exists s', BufferedTransport.read_exactly 0 30 true s
                 = (Raise (EOFError (Some (str "abXXYYcd"))), s')
                 /\ stream s' = []).
Proof.
  intros s.
  assert (Hwf : well_formed s).
  { apply well_formed_buffered_of. repeat constructor; discriminate. }
  destruct (read_exactly_stream 0 3 s Hwf) as [Hfull _].
  destruct (read_exactly_stream 0 30 s Hwf) as [_ Hshort].
  split.
  - destruct (Hfull ltac:(vm_compute; discriminate) true) as (s' & Hread & Hrest & _).
    exists s'. split; [exact Hread | exact Hrest].
  - destruct (Hshort ltac:(reflexivity)) as (s' & Hread & Hrest).
    exists s'. split; [exact Hread | exact Hrest].
Defined.

Section Framing.
Import BufferedTransport.

Lemma Z_of_byte_of_Z (z : Z) :
  PacketTransport.HEADER.Z_of_byte (PacketTransport.HEADER.byte_of_Z z) = z mod 256.
Proof.
  unfold PacketTransport.HEADER.Z_of_byte, PacketTransport.HEADER.byte_of_Z.
  assert (Hmod : 0 <= z mod 256 < 256) by (apply Z.mod_pos_bound; lia).
  destruct (Byte.of_N (Z.to_N (z mod 256))) as [x|] eqn:Hx.
  - apply Byte.to_of_N in Hx. rewrite Hx. lia.
  - apply Byte.of_N_None_iff in Hx. lia.
Qed.

Lemma unpack_pack (n : Z) (header : bytes) :
  PacketTransport.HEADER.pack n = Some header ->
  PacketTransport.HEADER.unpack header = Some n /\ len header = PacketTransport.HEADER.size.
Proof.
  unfold PacketTransport.HEADER.pack.
  destruct (Z.leb_spec 0 n); [|discriminate].
  destruct (Z.ltb_spec n (2 ^ 32)); [|discriminate].
  cbn [andb]. intros [= <-]. split; [|reflexivity].
  unfold PacketTransport.HEADER.unpack. rewrite !Z_of_byte_of_Z. f_equal.
  change (2 ^ 24) with 16777216. change (2 ^ 16) with 65536. change (2 ^ 8) with 256.
  change (2 ^ 32) with 4294967296 in *.
  Z.div_mod_to_equations. lia.
Qed.

Lemma pack_in_range (n : Z) :
  0 <= n < 2 ^ 32 -> exists header, PacketTransport.HEADER.pack n = Some header.
Proof.
  intros [Hlo Hhi]. unfold PacketTransport.HEADER.pack.
  destruct (Z.leb_spec 0 n); [|lia].
  destruct (Z.ltb_spec n (2 ^ 32)); [|lia].
  eexists. reflexivity.
Qed.

Lemma flush_spec (s : buffered) :
  open_for_writing s ->
  exists s',
    flush s = (Ret tt, s')
    /\ RawTransport.wire (transport s') = emitted s
    /\ _wbuf s' = []
    /\ open_for_writing s'.
Proof.
  intros Hopen. unfold open_for_writing in *. eexists. split.
  - unfold flush, bind, get, put, on_transport. cbn.
    unfold RawTransport.write. rewrite Hopen. reflexivity.
  - cbn. auto.
Qed.

Lemma write_spec (data : bytes) (s : buffered) :
  open_for_writing s ->
  exists s',
    write data s = (Ret tt, s')
    /\ emitted s' = emitted s ++ data
    /\ open_for_writing s'.
Proof.
  intros Hopen. unfold write, bind at 1, modify, bind at 1, get.
  destruct (_wbufsize _ <? len _).
  - destruct (flush_spec (set_wbuf (_wbuf s ++ data) s) Hopen)
      as (s' & Hflush & Hwire & Hwbuf & Hopen').
    exists s'. split; [exact Hflush|]. split; [|exact Hopen'].
    unfold emitted at 1. rewrite Hwire, Hwbuf, app_nil_r.
    unfold emitted. cbn. now rewrite app_assoc.
  - eexists. split; [reflexivity|]. split; [|exact Hopen].
    unfold emitted. cbn. now rewrite app_assoc.
Qed.

Lemma send_spec (data : bytes) (p : PacketTransport.t RawTransport.t) :
  open_for_writing (PacketTransport.transport p) ->
  len data < 2 ^ 32 ->
  exists header p',
    PacketTransport.HEADER.pack (len data) = Some header
    /\ PacketTransport.send data true p = (Ret tt, p')
    /\ RawTransport.wire (transport (PacketTransport.transport p'))
       = emitted (PacketTransport.transport p) ++ header ++ data
    /\ _wbuf (PacketTransport.transport p') = [].
Proof.
  intros Hopen Hlen.
  destruct (pack_in_range (len data)) as (header & Hpack); [unfold len in *; lia|].
  destruct (write_spec header _ Hopen) as (s1 & Hw1 & He1 & Hopen1).
  destruct (write_spec data _ Hopen1) as (s2 & Hw2 & He2 & Hopen2).
  destruct (flush_spec _ Hopen2) as (s3 & Hf & Hwire & Hwbuf & _).
  exists header, (PacketTransport.mk s3 (PacketTransport.max_length p)).
  split; [exact Hpack|]. split.
  - unfold PacketTransport.send. rewrite Hpack.
    unfold bind, PacketTransport.on_transport.
    rewrite Hw1. cbn [PacketTransport.transport PacketTransport.set_transport].
    rewrite Hw2. cbn [PacketTransport.transport PacketTransport.set_transport].
    rewrite Hf. reflexivity.
  - cbn. rewrite Hwire, He2, He1, <- app_assoc. auto.
Qed.

Lemma unpack_length (header : bytes) (length : Z) :
  PacketTransport.HEADER.unpack header = Some length ->
  exists b3 b2 b1 b0, header = [b3; b2; b1; b0].
Proof.
  destruct header as [|b3 [|b2 [|b1 [|b0 [|? ?]]]]]; try discriminate.
  intros _. now exists b3, b2, b1, b0.
Qed.

Lemma recv_spec (fuel : nat) (p : PacketTransport.t RawTransport.t)
    (header rest : bytes) (length : Z) :
  well_formed (PacketTransport.transport p) ->
  stream (PacketTransport.transport p) = header ++ rest ->
  PacketTransport.HEADER.unpack header = Some length ->
  let max_length := PacketTransport.max_length p in
  let too_long := (0 <? max_length) && (max_length <? length) in
  exists s',
    PacketTransport.recv fuel p
    = (if too_long then Raise (PacketTooLong length max_length)
       else if len rest <? length then Raise (EOFError (Some rest))
       else Ret (take (Z.to_nat length) rest),
       PacketTransport.mk s' max_length)
    /\ stream s' = (if too_long then rest else drop (Z.to_nat length) rest)
    /\ well_formed s'.
Proof.
  intros Hwf Hstream Hunpack max_length too_long.
  destruct (unpack_length _ _ Hunpack) as (b3 & b2 & b1 & b0 & ->).
  destruct (read_exactly_spec fuel PacketTransport.HEADER.size true _ Hwf)
    as (s1 & Hhead & Hrest1 & Hwf1).
  rewrite Hstream in Hhead, Hrest1.
  assert (Hlen : (len ([b3; b2; b1; b0] ++ rest) <? PacketTransport.HEADER.size) = false).
  { rewrite len_app. apply Z.ltb_ge. pose proof (len_nonneg rest).
    change (len [b3; b2; b1; b0]) with 4. unfold PacketTransport.HEADER.size. lia. }
  rewrite Hlen in Hhead. cbn [andb] in Hhead.
  change (take _ ([b3; b2; b1; b0] ++ rest)) with [b3; b2; b1; b0] in Hhead.
  change (drop _ ([b3; b2; b1; b0] ++ rest)) with rest in Hrest1.
  destruct (read_exactly_spec fuel length true _ Hwf1) as (s2 & Hbody & Hrest2 & Hwf2).
  rewrite Hrest1 in Hbody, Hrest2. cbn [andb] in Hbody.
  unfold PacketTransport.recv, bind at 1, PacketTransport.on_transport at 1.
  rewrite Hhead. rewrite Hunpack.
  unfold bind at 1, get.
  cbn [PacketTransport.max_length PacketTransport.set_transport].
  fold max_length. fold too_long.
  destruct too_long.
  - exists s1. unfold raise. cbn [PacketTransport.max_length]. auto.
  - exists s2. unfold bind, PacketTransport.on_transport.
    cbn [PacketTransport.transport PacketTransport.set_transport]. rewrite Hbody.
    cbn [PacketTransport.max_length PacketTransport.set_transport].
    split; [|split; assumption].
    now destruct (len rest <? length).
Qed.

End Framing.

Section Packets.
Import BufferedTransport.

(** C7. [recv] takes the four bytes of the header off the stream and decodes
    the length. It raises [PacketTooLong] exactly when [max_length] is
    positive and the length exceeds it, and the stream is then at the first
    byte of the body; otherwise, on a stream that holds the body, it returns
    the [length] bytes that follow the header and leaves the stream behind
    them. *)
Theorem recv_header_then_body (fuel : nat) (p : PacketTransport.t RawTransport.t)
    (header rest : bytes) (length : Z) :
  well_formed (PacketTransport.transport p) ->
  stream (PacketTransport.transport p) = header ++ rest ->
  PacketTransport.HEADER.unpack header = Some length ->
  let max_length := PacketTransport.max_length p in
  len header = 4
  /\ (is_PacketTooLong (fst (PacketTransport.recv fuel p))
      <-> 0 < max_length /\ max_length < length)
  /\ (0 < max_length /\ max_length < length ->
      exists s',
        PacketTransport.recv fuel p
        = (Raise (PacketTooLong length max_length), PacketTransport.mk s' max_length)
        /\ stream s' = rest)
  /\ (~ (0 < max_length /\ max_length < length) ->
      length <= len rest ->
      exists s',
        PacketTransport.recv fuel p
        = (Ret (take (Z.to_nat length) rest), PacketTransport.mk s' max_length)
        /\ stream s' = drop (Z.to_nat length) rest).
Proof.
  intros Hwf Hstream Hunpack max_length.
  destruct (recv_spec fuel p header rest length Hwf Hstream Hunpack)
    as (s' & Hrecv & Hrest & _).
  fold max_length in Hrecv, Hrest.
  assert (Hcond : (0 <? max_length) && (max_length <? length) = true
                  <-> 0 < max_length /\ max_length < length).
  { rewrite andb_true_iff, !Z.ltb_lt. reflexivity. }
  split; [|split; [|split]].
  - destruct (unpack_length _ _ Hunpack) as (b3 & b2 & b1 & b0 & ->). reflexivity.
  - rewrite <- Hcond, Hrecv. cbn [fst].
    destruct ((0 <? max_length) && (max_length <? length)).
    + split; [reflexivity|]. intros _. now exists length, max_length.
    + split; [|discriminate]. intros (l & m & Hraise).
      destruct (len rest <? length); discriminate.
  - intros Hlong. apply Hcond in Hlong. rewrite Hlong in Hrecv, Hrest.
    exists s'. split; assumption.
  - intros Hshort Hbody. exists s'.
    destruct ((0 <? max_length) && (max_length <? length)).
    + exfalso. apply Hshort, Hcond. reflexivity.
    + split; [|assumption]. rewrite Hrecv.
      destruct (Z.ltb_spec (len rest) length); [lia|reflexivity].
Qed.

Lemma sent_spec (p : bytes) (sender : PacketTransport.t RawTransport.t) :
  open_for_writing (PacketTransport.transport sender) ->
  len p < 2 ^ 32 ->
  exists header,
    PacketTransport.HEADER.pack (len p) = Some header
    /\ fst (PacketTransport.send p true sender) = Ret tt
    /\ sent p sender = header ++ p.
Proof.
  intros Hopen Hlen.
  destruct (send_spec p sender Hopen Hlen) as (header & sender' & Hpack & Hsend & Hwire & _).
  exists header. split; [exact Hpack|]. unfold sent. rewrite Hsend. cbn [fst snd].
  split; [reflexivity|]. rewrite Hwire. apply drop_app_length.
Qed.

(** C1, as amended. For a payload [p] shorter than 2^32 bytes, [send(p)]
    returns normally and adds to the byte stream the length of [p] as four
    bytes, most significant first, and then [p]. A receiver that reads a
    stream starting with these bytes gets [p] from [recv] and is left at the
    byte after them when its [max_length] is not positive or is at least the
    length of [p]; when its [max_length] is positive and below the length of
    [p], its [recv] raises [PacketTooLong] instead and leaves the stream at
    the first byte of [p]. *)
Theorem send_recv_roundtrip (fuel : nat)
    (sender receiver : PacketTransport.t RawTransport.t) (p rest : bytes) :
  open_for_writing (PacketTransport.transport sender) ->
  len p < 2 ^ 32 ->
  well_formed (PacketTransport.transport receiver) ->
  stream (PacketTransport.transport receiver) = sent p sender ++ rest ->
  let max_length := PacketTransport.max_length receiver in
  fst (PacketTransport.send p true sender) = Ret tt
  /\ sent p sender
     = [PacketTransport.HEADER.byte_of_Z (len p / 2 ^ 24);
        PacketTransport.HEADER.byte_of_Z (len p / 2 ^ 16);
        PacketTransport.HEADER.byte_of_Z (len p / 2 ^ 8);
        PacketTransport.HEADER.byte_of_Z (len p)] ++ p
  /\ (max_length <= 0 \/ len p <= max_length ->
      exists receiver',
        PacketTransport.recv fuel receiver = (Ret p, receiver')
        /\ stream (PacketTransport.transport receiver') = rest)
  /\ (0 < max_length /\ max_length < len p ->
      exists receiver',
        PacketTransport.recv fuel receiver
        = (Raise (PacketTooLong (len p) max_length), receiver')
        /\ stream (PacketTransport.transport receiver') = p ++ rest).
Proof.
  intros Hopen Hlen Hwf Hstream max_length.
  destruct (sent_spec p sender Hopen Hlen) as (header & Hpack & Hsend & Hsent).
  destruct (unpack_pack _ _ Hpack) as [Hunpack _].
  split; [exact Hsend|]. split.
  { rewrite Hsent. f_equal. unfold PacketTransport.HEADER.pack in Hpack.
    destruct ((0 <=? len p) && (len p <? 2 ^ 32)); [|discriminate].
    now injection Hpack as <-. }
  rewrite Hsent, <- app_assoc in Hstream.
  destruct (recv_spec fuel receiver header (p ++ rest) (len p) Hwf Hstream Hunpack)
    as (s' & Hrecv & Hrest & _).
  cbn zeta in Hrecv, Hrest. fold max_length in Hrecv, Hrest.
  split.
  - intros Hmax.
    assert (Hfits : (0 <? max_length) && (max_length <? len p) = false).
    { apply andb_false_iff. rewrite !Z.ltb_ge. lia. }
    rewrite Hfits in Hrecv, Hrest.
    assert (Hbody : (len (p ++ rest) <? len p) = false).
    { apply Z.ltb_ge. rewrite len_app. pose proof (len_nonneg rest). lia. }
    rewrite Hbody in Hrecv.
    unfold len in Hrecv, Hrest. rewrite Nat2Z.id in Hrecv, Hrest.
    rewrite take_app_length in Hrecv. rewrite drop_app_length in Hrest.
    eexists. split; [exact Hrecv|exact Hrest].
  - intros [Hpos Hlong].
    assert (Hover : (0 <? max_length) && (max_length <? len p) = true).
    { apply andb_true_iff. rewrite !Z.ltb_lt. split; assumption. }
    rewrite Hover in Hrecv, Hrest.
    eexists. split; [exact Hrecv|exact Hrest].
Qed.

End Packets.

(** C1, counterexample: with [max_length = 4], as in the packet-overrun
    scenario, [send("hello")] puts [00 00 00 05 68 65 6c 6c 6f] on the wire and
    the [recv] of a peer that reads these bytes raises [PacketTooLong]. And a
    payload of 2^32 bytes is not sent at all, whatever [max_length] is: its
    length does not fit the header, [send] raises [struct.error] and writes
    nothing. *)
Lemma recv_after_send_too_long :
  sent (str "hello") (packet_of [] 4) = [x00; x00; x00; x05] ++ str "hello"
  /\ PacketTransport.recv 0 (packet_of [[x00; x00; x00; x05] ++ str "hello"] 4)
     = (Raise (PacketTooLong 5 4),
        PacketTransport.mk (buffered_with (str "hello") []) 4)
  /\ ~ roundtrip_for_every_payload
  /\ PacketTransport.send (replicate (Z.to_nat (2 ^ 32)) x00) true (packet_of [] 0)
     = (Raise struct_error, packet_of [] 0).
Proof.
  split; [reflexivity|]. split; [reflexivity|]. split.
  - intros Hclaim.
    specialize (Hclaim 0%nat (packet_of [] 4)
                  (packet_of [[x00; x00; x00; x05] ++ str "hello"] 4) (str "hello")).
    assert (Hwf : well_formed (buffered_of [[x00; x00; x00; x05] ++ str "hello"])).
    { apply well_formed_buffered_of. repeat constructor. discriminate. }
    specialize (Hclaim eq_refl Hwf eq_refl).
    discriminate Hclaim.
  - assert (Hlen : len (replicate (Z.to_nat (2 ^ 32)) x00) = 2 ^ 32).
    { unfold len. rewrite length_replicate. apply Z2Nat.id. discriminate. }
    unfold PacketTransport.send. rewrite Hlen. reflexivity.
Qed.

Lemma send_recv_roundtrip_witness :
  let sender := packet_of [] (1024 * 1024) in
  let receiver :=
    packet_of [[x00; x00]; [x00; x05; x68]; [x65; x6c; x6c; x6f; x21]] (1024 * 1024) in
  let strict :=
    packet_of [[x00; x00]; [x00; x05; x68]; [x65; x6c; x6c; x6f; x21]] 4 in
  sent (str "hello") sender = [x00; x00; x00; x05; x68; x65; x6c; x6c; x6f]
  /\ (exists receiver',
        PacketTransport.recv 0 receiver = (Ret (str "hello"), receiver')
        /\ stream (PacketTransport.transport receiver') = [x21])
  /\ (exists receiver',
        PacketTransport.recv 0 strict = (Raise (PacketTooLong 5 4), receiver')
        /\ stream (PacketTransport.transport receiver') = str "hello" ++ [x21]).
Proof.
  intros sender receiver strict.
  assert (Hopen : open_for_writing (PacketTransport.transport sender)) by reflexivity.
  assert (Hlen : len (str "hello") < 2 ^ 32) by (vm_compute; reflexivity).
  assert (Hwf : well_formed (PacketTransport.transport receiver)).
  { apply well_formed_buffered_of. repeat constructor; discriminate. }
  assert (Hwf' : well_formed (PacketTransport.transport strict)).
  { apply well_formed_buffered_of. repeat constructor; discriminate. }
  assert (Hstream : stream (PacketTransport.transport receiver)
                    = sent (str "hello") sender ++ [x21]) by (vm_compute; reflexivity).
  assert (Hstream' : stream (PacketTransport.transport strict)
                     = sent (str "hello") sender ++ [x21]) by (vm_compute; reflexivity).
  destruct (send_recv_roundtrip 0 sender receiver (str "hello") [x21]
              Hopen Hlen Hwf Hstream) as (_ & Hsent & Hfits & _).
  destruct (send_recv_roundtrip 0 sender strict (str "hello") [x21]
              Hopen Hlen Hwf' Hstream') as (_ & _ & _ & Hover).
  split; [rewrite Hsent; vm_compute; reflexivity|]. split.
  - apply Hfits. right. vm_compute. discriminate.
  - apply Hover. vm_compute. split; reflexivity.
Defined.

Lemma recv_header_then_body_witness :
  (exists s',
     PacketTransport.recv 0 (packet_of [[x00; x00; x00]; [x05; x68; x65; x6c; x6c; x6f]] 4)
     = (Raise (PacketTooLong 5 4), PacketTransport.mk s' 4)
     /\ stream s' = str "hello")
  /\ (exists s',
        PacketTransport.recv 0 (packet_of [[x00; x00; x00]; [x05; x68; x65; x6c; x6c; x6f; x21]] 0)
        = (Ret (str "hello"), PacketTransport.mk s' 0)
        /\ stream s' = [x21]).
Proof.
  split.
  - assert (Hwf : well_formed (PacketTransport.transport
        (packet_of [[x00; x00; x00]; [x05; x68; x65; x6c; x6c; x6f]] 4))).
    { apply well_formed_buffered_of. repeat constructor; discriminate. }
    destruct (recv_header_then_body 0 _ [x00; x00; x00; x05] (str "hello") 5
                Hwf eq_refl eq_refl) as (_ & _ & Hlong & _).
    apply Hlong. cbn. lia.
  - assert (Hwf : well_formed (PacketTransport.transport
        (packet_of [[x00; x00; x00]; [x05; x68; x65; x6c; x6c; x6f; x21]] 0))).
    { apply well_formed_buffered_of. repeat constructor; discriminate. }
    destruct (recv_header_then_body 0 _ [x00; x00; x00; x05] (str "hello" ++ [x21]) 5
                Hwf eq_refl eq_refl) as (_ & _ & _ & Hbody).
    apply Hbody.
    + cbn. lia.
    + vm_compute. discriminate.
Defined.

(** * Further properties *)

(** ** Selecting reactor: registration and its undoing *)

Section Unregistration.
Import SelectingReactor.

(** X1. After [unregister_read] the descriptor of the transport is free, whatever
    transport held it: a registration of any transport with that descriptor
    then succeeds; and unregistering again changes nothing. *)
Theorem unregister_read_frees_slot (s : SelectingReactor.t) (trns other : transport) :
  fileno other = fileno trns ->
  let s1 := snd (unregister_read trns s) in
  fst (unregister_read trns s) = Ret tt
  /\ _read_transports s1 !! fileno trns = None
  /\ _write_transports s1 = _write_transports s
  /\ unregister_read trns s1 = (Ret tt, s1)
  /\ fst (register_read other s1) = Ret tt
  /\ _read_transports (snd (register_read other s1)) !! fileno trns = Some (id other).
Proof.
  intros Hfd. cbn. split; [reflexivity|]. split; [apply lookup_delete_eq|].
  split; [reflexivity|]. split.
  - unfold unregister_read. cbn. now rewrite delete_delete_eq.
  - unfold register_read, occupied_by_other. cbn. rewrite Hfd, lookup_delete_eq. cbn.
    split; [reflexivity|]. apply lookup_insert_eq.
Qed.

(** X2. Registering a transport for a descriptor that is free and unregistering
    it again gives back the reactor as it was. *)
Theorem register_unregister_read (s : SelectingReactor.t) (trns : transport) :
  _read_transports s !! fileno trns = None ->
  exists s1,
    register_read trns s = (Ret tt, s1)
    /\ unregister_read trns s1 = (Ret tt, s).
Proof.
  intros Hfree. eexists. split.
  - unfold register_read, occupied_by_other. rewrite Hfree. reflexivity.
  - unfold unregister_read. cbn. rewrite delete_insert_id by exact Hfree.
    now destruct s.
Qed.

(** X3. The two directions are independent: [register_read] looks only at the
    read map and changes only it, so a descriptor that one transport holds
    for writing can be registered for reading by another transport; in the
    same direction that registration is refused and changes nothing. *)
Theorem register_directions_independent (s : SelectingReactor.t) (t1 t2 : transport) :
  fileno t1 = fileno t2 ->
  id t1 <> id t2 ->
  _read_transports s !! fileno t1 = None ->
  _write_transports s !! fileno t1 = None ->
  exists s1 s2,
    register_write t1 s = (Ret tt, s1)
    /\ register_read t2 s1 = (Ret tt, s2)
    /\ _write_transports s2 !! fileno t1 = Some (id t1)
    /\ _read_transports s2 !! fileno t1 = Some (id t2)
    /\ register_write t2 s2 = (Raise ReactorError, s2)
    /\ register_read t1 s2 = (Raise ReactorError, s2).
Proof.
  intros Hfd Hid Hr Hw.
  destruct t1 as [id1 fd], t2 as [id2 fd2]. cbn in *. subst fd2.
  unfold register_write, register_read, occupied_by_other. cbn.
  rewrite Hw. eexists _, _. split; [reflexivity|]. cbn. rewrite Hr.
  split; [reflexivity|]. cbn. rewrite !lookup_insert_eq.
  destruct (Pos.eqb_spec id1 id2); [contradiction|].
  destruct (Pos.eqb_spec id2 id1); [congruence|].
  repeat split.
Qed.

End Unregistration.

Lemma unregister_read_frees_slot_witness :
  let s := SelectingReactor.mk {[ 0 := 1%positive ]} ∅ in
  let s1 := snd (SelectingReactor.unregister_read stdin_transport s) in
  fst (SelectingReactor.register_read (SelectingReactor.mk_transport 2 0) s1) = Ret tt.
Proof.
  intros s s1.
  assert (Hfd : SelectingReactor.fileno (SelectingReactor.mk_transport 2 0)
                = SelectingReactor.fileno stdin_transport) by reflexivity.
  destruct (unregister_read_frees_slot s stdin_transport _ Hfd)
    as (_ & _ & _ & _ & Hreg & _).
  exact Hreg.
Defined.

Lemma register_unregister_read_witness :
  exists s1,
    SelectingReactor.register_read stdin_transport SelectingReactor.__init__ = (Ret tt, s1)
    /\ SelectingReactor.unregister_read stdin_transport s1
       = (Ret tt, SelectingReactor.__init__).
Proof.
  apply register_unregister_read. reflexivity.
Defined.

Lemma register_directions_independent_witness :
  exists s1 s2,
    SelectingReactor.register_write stdin_transport SelectingReactor.__init__ = (Ret tt, s1)
    /\ SelectingReactor.register_read (SelectingReactor.mk_transport 2 0) s1 = (Ret tt, s2)
    /\ SelectingReactor.register_write (SelectingReactor.mk_transport 2 0) s2
       = (Raise ReactorError, s2).
Proof.
  destruct (register_directions_independent SelectingReactor.__init__ stdin_transport
              (SelectingReactor.mk_transport 2 0))
    as (s1 & s2 & Hw & Hr & _ & _ & Hw2 & _).
  - reflexivity.
  - discriminate.
  - reflexivity.
  - reflexivity.
  - exists s1, s2. split; [exact Hw|]. split; [exact Hr|exact Hw2].
Defined.

(** ** BufferedTransport: filling and reading *)

Section AnyInner.
Context {T : Type} `{Transport T}.
Import BufferedTransport.

(** X4. [_fill_rbuf] reads the inner transport at most once: the loop is left
    after its first iteration, with [True] when the read gave no data or
    raised [TransportClosed], and with [False] and the data appended to the
    read buffer otherwise; with a count that is not positive it reads
    nothing. *)
Theorem _fill_rbuf_single_read (count : Z) (s : BufferedTransport.t T) :
  _fill_rbuf count s
  = if 0 <? count then
      match except_TransportClosed (on_transport (transport_read count)) s with
      | (Ret (Some (d :: data)), s1) =>
        (Ret false, set_rbuf (_rbuf s1 ++ d :: data) s1)
      | (Ret _, s1) => (Ret true, s1)
      | (Raise e, s1) => (Raise e, s1)
      | (OutOfFuel, s1) => (OutOfFuel, s1)
      end
    else (Ret false, s).
Proof.
  unfold _fill_rbuf. cbn [_fill_rbuf_loop].
  destruct (0 <? count); [|reflexivity].
  unfold bind.
  destruct (except_TransportClosed (on_transport (transport_read count)) s)
    as [[[[|d data]|]|e|] s1]; try reflexivity.
  unfold modify.
  destruct (Z.ltb_spec (len (d :: data)) count) as [|Hge]; [reflexivity|].
  destruct (Z.ltb_spec 0 (count - len (d :: data))) as [|_]; [lia|reflexivity].
Qed.

(** X5. A [read] that the read buffer can satisfy is served from it: the inner
    transport is not touched. *)
Theorem read_served_from_buffer (fuel : nat) (count : Z) (s : BufferedTransport.t T) :
  0 <= count <= len (_rbuf s) ->
  read fuel count s
  = (Ret (take (Z.to_nat count) (_rbuf s)),
     set_rbuf (drop (Z.to_nat count) (_rbuf s)) s).
Proof.
  intros [Hlo Hhi]. unfold read.
  destruct (Z.ltb_spec count 0); [lia|].
  unfold bind at 1. unfold get at 1. unfold bind at 1.
  destruct (Z.ltb_spec (len (_rbuf s)) count); [lia|]. reflexivity.
Qed.

(** A [read] with a count that is not negative never returns more bytes than
    it was asked for, whatever the inner transport delivers. *)
Lemma read_at_most_count (fuel : nat) (count : Z) (s s' : BufferedTransport.t T) data :
  0 <= count ->
  read fuel count s = (Ret data, s') ->
  len data <= count.
Proof.
  intros Hcount. unfold read.
  destruct (Z.ltb_spec count 0); [lia|].
  unfold bind at 1. unfold get at 1. unfold bind at 1.
  destruct (len (_rbuf s) <? count).
  - unfold bind at 1.
    destruct (_fill_rbuf _ s) as [[eof|e|] s1]; try discriminate.
    intros [= <- <-]. unfold len. rewrite length_take. lia.
  - intros [= <- <-]. unfold len. rewrite length_take. lia.
Qed.

(** X6. A failing [flush] loses the bytes that [write] had accepted: the write
    buffer is emptied before the inner [write] is awaited, so when a [write]
    fills the buffer beyond its size and the inner [write] raises, the
    exception reaches the caller and the buffer is left empty. *)
Theorem write_flush_failure_drops_buffer (data : bytes) (s : BufferedTransport.t T) e x :
  _wbufsize s < len (_wbuf s ++ data) ->
  transport_write (_wbuf s ++ data) (transport s) = (Raise e, x) ->
  write data s = (Raise e, set_wbuf [] (set_transport x s))
  /\ flush (set_wbuf (_wbuf s ++ data) s) = (Raise e, set_wbuf [] (set_transport x s)).
Proof.
  intros Hfull Hwrite.
  assert (Hflush : flush (set_wbuf (_wbuf s ++ data) s)
                   = (Raise e, set_wbuf [] (set_transport x s))).
  { unfold flush, bind, get, put, on_transport. cbn. now rewrite Hwrite. }
  split; [|exact Hflush].
  unfold write, bind at 1, modify, bind at 1, get. cbn [_wbufsize _wbuf set_wbuf].
  destruct (Z.ltb_spec (_wbufsize s) (len (_wbuf s ++ data))); [exact Hflush|lia].
Qed.

(** A [write] that leaves the write buffer within its size only appends to
    it: nothing reaches the inner transport. *)
Lemma write_buffers (data : bytes) (s : BufferedTransport.t T) :
  len (_wbuf s ++ data) <= _wbufsize s ->
  write data s = (Ret tt, set_wbuf (_wbuf s ++ data) s).
Proof.
  intros Hfits. unfold write, bind, modify, get. cbn [_wbufsize _wbuf set_wbuf].
  destruct (Z.ltb_spec (_wbufsize s) (len (_wbuf s ++ data))); [lia|reflexivity].
Qed.

End AnyInner.

Lemma read_served_from_buffer_witness :
  BufferedTransport.read 0 2 (buffered_with (str "xyz") [str "more"])
  = (Ret (str "xy"), buffered_with (str "z") [str "more"]).
Proof.
  apply (read_served_from_buffer 0 2 (buffered_with (str "xyz") [str "more"])).
  vm_compute. split; discriminate.
Defined.

Lemma write_flush_failure_drops_buffer_witness :
  let s := BufferedTransport.mk closed_raw 16000 4 (str "") (str "abc") in
  BufferedTransport.write (str "de") s
  = (Raise TransportClosed, BufferedTransport.mk closed_raw 16000 4 (str "") (str "")).
Proof.
  intros s.
  assert (Hfull : BufferedTransport._wbufsize s
                  < len (BufferedTransport._wbuf s ++ str "de")) by (vm_compute; reflexivity).
  assert (Hraise : transport_write (BufferedTransport._wbuf s ++ str "de")
                     (BufferedTransport.transport s)
                   = (Raise TransportClosed, closed_raw)) by reflexivity.
  destruct (write_flush_failure_drops_buffer (str "de") s TransportClosed closed_raw
              Hfull Hraise) as [Hwrite _].
  exact Hwrite.
Defined.

(** ** BufferedTransport over a stream: reading all, writing, closing *)

Section StreamMore.
Import BufferedTransport.

(** X7. A [read] of a positive count returns a prefix of the stream of at most
    that many bytes and leaves the stream behind it; the prefix is empty only
    when the stream is at its end. *)
Theorem buffered_read_stream (fuel : nat) (count : Z) (s : buffered) :
  well_formed s ->
  0 < count ->
  exists data s',
    read fuel count s = (Ret data, s')
    /\ stream s = data ++ stream s'
    /\ len data <= count
    /\ (data = [] <-> stream s = [])
    /\ well_formed s'.
Proof.
  intros Hwf Hcount.
  destruct (read_spec fuel s count Hwf Hcount) as (data & s' & Hread & Hstream & Hwf' & Hlen & Hne).
  exists data, s'. split; [exact Hread|]. split; [exact Hstream|]. split; [exact Hlen|].
  split; [|exact Hwf']. split.
  - intros ->. destruct (stream s) eqn:Hs; [reflexivity|].
    exfalso. now apply Hne.
  - intros Hs. rewrite Hs in Hstream. symmetry in Hstream.
    now apply app_eq_nil in Hstream as [? _].
Qed.

Lemma incoming_nil_of_concat (chunks : list bytes) :
  Forall (fun c => c <> []) chunks -> concat chunks = [] -> chunks = [].
Proof.
  intros Hchunks Hconcat. destruct chunks as [|c chunks]; [reflexivity|].
  inversion Hchunks as [|? ? Hc _]; subst. cbn in Hconcat.
  apply app_eq_nil in Hconcat as [? _]. contradiction.
Qed.

Lemma read_all_loop_spec (n : nat) :
  forall (chunk : Z) (chunks : list bytes) (s : buffered),
    well_formed s ->
    0 < chunk ->
    (length (concat (RawTransport.incoming (transport s))) < n)%nat ->
    exists s',
      read_all_loop n chunk chunks s
      = (Ret (concat chunks ++ concat (RawTransport.incoming (transport s))), s')
      /\ RawTransport.incoming (transport s') = []
      /\ _rbuf s' = _rbuf s
      /\ well_formed s'.
Proof.
  induction n as [|n IH]; intros chunk chunks s Hwf Hchunk Hfuel; [lia|].
  destruct Hwf as (Hopen & Hchunks & Hsize).
  destruct (raw_read_spec (transport s) chunk Hopen Hchunks Hchunk)
    as (data & r' & Hread & Hconcat & Hopen' & Hchunks' & _ & _ & Hdata).
  cbn [read_all_loop]. unfold bind at 1. unfold on_transport.
  cbn [transport_read RawTransport_Transport]. rewrite Hread.
  destruct data as [|d data]; cbn [is_empty].
  - assert (Hinc : RawTransport.incoming (transport s) = []).
    { destruct (RawTransport.incoming (transport s)); [reflexivity|].
      exfalso. now apply Hdata. }
    rewrite Hinc in *. cbn in Hconcat. symmetry in Hconcat.
    apply incoming_nil_of_concat in Hconcat; [|exact Hchunks'].
    exists (set_transport r' s). unfold ret. cbn. rewrite app_nil_r.
    split; [reflexivity|]. split; [exact Hconcat|]. split; [reflexivity|].
    split; [exact Hopen'|]. split; [exact Hchunks'|exact Hsize].
  - destruct (IH chunk (chunks ++ [d :: data]) (set_transport r' s))
      as (s' & Hloop & Hinc & Hrbuf & Hwf').
    + split; [exact Hopen'|]. split; [exact Hchunks'|exact Hsize].
    + exact Hchunk.
    + cbn [transport set_transport]. rewrite Hconcat, length_app in Hfuel.
      cbn [length] in Hfuel. lia.
    + exists s'. rewrite Hloop. cbn [transport set_transport].
      split; [|split; [exact Hinc|split; [exact Hrbuf|exact Hwf']]].
      rewrite Hconcat, concat_app. cbn [concat]. now rewrite app_nil_r, <- app_assoc.
Qed.

(** X8. [read_all], and so a [read] of a negative count, returns the whole
    stream, the buffered bytes first, however the inner transport chunks it,
    and leaves the stream at its end. *)
Theorem read_all_stream (fuel : nat) (chunk count : Z) (s : buffered) :
  well_formed s ->
  0 < chunk ->
  count < 0 ->
  (length (concat (RawTransport.incoming (transport s))) < fuel)%nat ->
  exists s1 s2,
    read_all fuel chunk s = (Ret (stream s), s1)
    /\ stream s1 = []
    /\ read fuel count s = (Ret (stream s), s2)
    /\ stream s2 = [].
Proof.
  intros Hwf Hchunk Hcount Hfuel.
  assert (Hall : forall chunk, 0 < chunk ->
            exists s1, read_all fuel chunk s = (Ret (stream s), s1) /\ stream s1 = []).
  { intros c Hc.
    destruct (read_all_loop_spec fuel c [_rbuf s] (set_rbuf [] s))
      as (s1 & Hloop & Hinc & Hrbuf & _).
    - exact Hwf.
    - exact Hc.
    - exact Hfuel.
    - exists s1. split.
      + unfold read_all, bind, get, put. rewrite Hloop. cbn. now rewrite app_nil_r.
      + unfold stream. rewrite Hinc, Hrbuf. reflexivity. }
  destruct (Hall chunk Hchunk) as (s1 & H1 & Hs1).
  destruct (Hall 16000 ltac:(lia)) as (s2 & H2 & Hs2).
  exists s1, s2. split; [exact H1|]. split; [exact Hs1|]. split; [|exact Hs2].
  unfold read. destruct (Z.ltb_spec count 0); [exact H2|lia].
Qed.

(** X9. With [raise_on_eof=False], [read_exactly(n)] on a stream that ends early
    returns the bytes there are instead of raising; and in either mode
    [read_exactly] of a count that is not positive returns the empty string
    and reads nothing. *)
Theorem read_exactly_without_raise (fuel : nat) (n : Z) (raise_on_eof : bool) (s : buffered) :
  well_formed s ->
  (exists s',
     read_exactly fuel n false s = (Ret (take (Z.to_nat n) (stream s)), s')
     /\ stream s' = drop (Z.to_nat n) (stream s))
  /\ (n <= 0 -> read_exactly fuel n raise_on_eof s = (Ret [], s)).
Proof.
  intros Hwf. split.
  - destruct (read_exactly_spec fuel n false s Hwf) as (s' & Hread & Hrest & _).
    exists s'. split; [exact Hread|exact Hrest].
  - intros Hn. unfold read_exactly, bind. cbn [read_exactly_loop].
    destruct (Z.ltb_spec 0 n); [lia|]. unfold ret at 1. cbn [concat].
    destruct (Z.ltb_spec 0 n); [lia|]. now rewrite andb_false_r.
Qed.

Lemma for_each_write_spec (datas : list bytes) :
  forall s : buffered,
    open_for_writing s ->
    exists s',
      for_each write datas s = (Ret (map (fun _ => tt) datas), s')
      /\ emitted s' = emitted s ++ concat datas
      /\ open_for_writing s'.
Proof.
  induction datas as [|data datas IH]; intros s Hopen.
  - exists s. cbn. rewrite app_nil_r. auto.
  - destruct (write_spec data s Hopen) as (s1 & Hwrite & Hemitted & Hopen1).
    destruct (IH s1 Hopen1) as (s' & Hrest & Hemitted' & Hopen').
    exists s'. cbn [for_each map concat]. unfold bind at 1. rewrite Hwrite.
    unfold bind at 1. rewrite Hrest. unfold ret.
    split; [reflexivity|]. split; [|exact Hopen'].
    now rewrite Hemitted', Hemitted, <- app_assoc.
Qed.

(** X10. Writes are neither lost nor reordered: after any sequence of [write]s the
    bytes on the wire followed by the write buffer are what they were before,
    followed by the data written, in order; and a [flush] then leaves all of
    them on the wire and the write buffer empty. *)
Theorem writes_then_flush (datas : list bytes) (s : buffered) :
  open_for_writing s ->
  exists s1 s2,
    for_each write datas s = (Ret (map (fun _ => tt) datas), s1)
    /\ RawTransport.wire (transport s1) ++ _wbuf s1
       = RawTransport.wire (transport s) ++ _wbuf s ++ concat datas
    /\ flush s1 = (Ret tt, s2)
    /\ RawTransport.wire (transport s2)
       = RawTransport.wire (transport s) ++ _wbuf s ++ concat datas
    /\ _wbuf s2 = [].
Proof.
  intros Hopen.
  destruct (for_each_write_spec datas s Hopen) as (s1 & Hwrites & Hemitted & Hopen1).
  destruct (flush_spec s1 Hopen1) as (s2 & Hflush & Hwire & Hwbuf & _).
  unfold emitted in *. rewrite <- app_assoc in Hemitted.
  exists s1, s2. split; [exact Hwrites|]. split; [exact Hemitted|].
  split; [exact Hflush|]. split; [|exact Hwbuf]. now rewrite Hwire.
Qed.

(** X11. [close] of a writable buffered transport flushes before it closes: the
    bytes still in the write buffer reach the wire, and the inner transport
    is closed. When the transport does not count as writable, the write
    buffer is not flushed: the inner transport is closed with the bytes
    still pending. *)
Theorem buffered_close_flushes (s : buffered) :
  open_for_writing s ->
  (exists s',
     close true s = (Ret tt, s')
     /\ RawTransport.wire (transport s') = RawTransport.wire (transport s) ++ _wbuf s
     /\ _wbuf s' = []
     /\ RawTransport.closed (transport s') = true)
  /\ (exists s',
        close false s = (Ret tt, s')
        /\ RawTransport.wire (transport s') = RawTransport.wire (transport s)
        /\ _wbuf s' = _wbuf s
        /\ RawTransport.closed (transport s') = true).
Proof.
  intros Hopen. split.
  - destruct (flush_spec s Hopen) as (s1 & Hflush & Hwire & Hwbuf & _).
    eexists. split.
    + unfold close, bind. rewrite Hflush. unfold on_transport. cbn. reflexivity.
    + cbn. auto.
  - eexists. split; [reflexivity|]. cbn. auto.
Qed.

End StreamMore.

Lemma well_formed_buffered_with rbuf chunks :
  Forall (fun c => c <> []) chunks -> well_formed (buffered_with rbuf chunks).
Proof. intros Hchunks. split; [reflexivity|]. split; [exact Hchunks|reflexivity]. Qed.

Lemma buffered_read_stream_witness :
  exists data s',
    BufferedTransport.read 0 6 (buffered_of [str "abXX"; str "YYcd"]) = (Ret data, s')
    /\ str "abXXYYcd" = data ++ stream s'
    /\ len data <= 6.
Proof.
  assert (Hwf : well_formed (buffered_of [str "abXX"; str "YYcd"])).
  { apply well_formed_buffered_of. repeat constructor; discriminate. }
  assert (Hcount : 0 < 6) by lia.
  destruct (buffered_read_stream 0 6 _ Hwf Hcount) as (data & s' & Hread & Hstream & Hlen & _).
  exists data, s'. split; [exact Hread|]. split; [exact Hstream|exact Hlen].
Defined.

Lemma read_all_stream_witness :
  exists s1 s2,
    BufferedTransport.read_all 9 3 (buffered_with (str "ab") [str "XX"; str "YYcd"])
    = (Ret (str "abXXYYcd"), s1)
    /\ stream s1 = []
    /\ BufferedTransport.read 9 (-1) (buffered_with (str "ab") [str "XX"; str "YYcd"])
       = (Ret (str "abXXYYcd"), s2)
    /\ stream s2 = [].
Proof.
  assert (Hwf : well_formed (buffered_with (str "ab") [str "XX"; str "YYcd"])).
  { apply well_formed_buffered_with. repeat constructor; discriminate. }
  assert (Hchunk : 0 < 3) by lia.
  assert (Hcount : -1 < 0) by lia.
  assert (Hfuel : (length (concat (RawTransport.incoming (BufferedTransport.transport
             (buffered_with (str "ab") [str "XX"; str "YYcd"])))) < 9)%nat)
    by (vm_compute; lia).
  exact (read_all_stream 9 3 (-1) _ Hwf Hchunk Hcount Hfuel).
Defined.

Lemma read_exactly_without_raise_witness :
  (exists s',
     BufferedTransport.read_exactly 0 30 false (buffered_of [str "abXX"; str "YYcd"])
     = (Ret (str "abXXYYcd"), s')
     /\ stream s' = [])
  /\ BufferedTransport.read_exactly 0 0 true (buffered_of [str "abXX"; str "YYcd"])
     = (Ret [], buffered_of [str "abXX"; str "YYcd"]).
Proof.
  assert (Hwf : well_formed (buffered_of [str "abXX"; str "YYcd"])).
  { apply well_formed_buffered_of. repeat constructor; discriminate. }
  destruct (read_exactly_without_raise 0 30 false _ Hwf) as [Hshort _].
  destruct (read_exactly_without_raise 0 0 true _ Hwf) as [_ Hzero].
  split; [exact Hshort|]. apply Hzero. lia.
Defined.

Lemma writes_then_flush_witness :
  exists s1 s2,
    for_each BufferedTransport.write [str "ab"; str "cde"; str "f"]
      (BufferedTransport.mk (raw_of []) 16000 4 [] [])
    = (Ret [tt; tt; tt], s1)
    /\ RawTransport.wire (BufferedTransport.transport s1) ++ BufferedTransport._wbuf s1
       = str "abcdef"
    /\ BufferedTransport.flush s1 = (Ret tt, s2)
    /\ RawTransport.wire (BufferedTransport.transport s2) = str "abcdef"
    /\ BufferedTransport._wbuf s2 = [].
Proof.
  assert (Hopen : open_for_writing (BufferedTransport.mk (raw_of []) 16000 4 [] []))
    by reflexivity.
  exact (writes_then_flush [str "ab"; str "cde"; str "f"] _ Hopen).
Defined.

Lemma buffered_close_flushes_witness :
  exists s',
    BufferedTransport.close true (BufferedTransport.mk (raw_of []) 16000 16000 [] (str "abc"))
    = (Ret tt, s')
    /\ RawTransport.wire (BufferedTransport.transport s') = str "abc"
    /\ BufferedTransport._wbuf s' = []
    /\ RawTransport.closed (BufferedTransport.transport s') = true.
Proof.
  assert (Hopen : open_for_writing
            (BufferedTransport.mk (raw_of []) 16000 16000 [] (str "abc"))) by reflexivity.
  destruct (buffered_close_flushes _ Hopen) as [Hclose _].
  exact Hclose.
Defined.

(** ** BufferedTransport: [read_until] *)

Section Find.
Import BufferedTransport.

Lemma startswith_spec (pat : bytes) :
  forall s, startswith s pat = true <-> exists post, s = pat ++ post.
Proof.
  induction pat as [|p pat IH]; intros s.
  - split; [intros _; now exists s|]. intros _. now destruct s.
  - destruct s as [|c s]; cbn.
    + split; [discriminate|]. intros (post & Hpost). discriminate.
    + rewrite andb_true_iff, IH. split.
      * intros (Heq & post & ->). apply Byte.byte_dec_bl in Heq as ->. now exists post.
      * intros (post & [= -> ->]). split; [now apply Byte.byte_dec_lb|now exists post].
Qed.

Lemma find_at_spec (pat : bytes) :
  forall (s : bytes) (i : Z),
    (find_at s pat i = -1
     /\ forall k, (k <= length s)%nat -> startswith (drop k s) pat = false)
    \/ (exists k, (k <= length s)%nat
          /\ find_at s pat i = i + Z.of_nat k
          /\ startswith (drop k s) pat = true
          /\ forall j, (j < k)%nat -> startswith (drop j s) pat = false).
Proof.
  induction s as [|c s IH]; intros i.
  - cbn [find_at]. destruct (startswith [] pat) eqn:Hstart.
    + right. exists 0%nat. cbn. repeat split; [lia|lia|exact Hstart|lia].
    + left. split; [reflexivity|]. intros k Hk. now rewrite drop_nil.
  - cbn [find_at]. destruct (startswith (c :: s) pat) eqn:Hstart.
    + right. exists 0%nat. cbn [drop length]. repeat split; [lia|lia|exact Hstart|lia].
    + destruct (IH (i + 1)) as [[Hnone Hall]|(k & Hk & Hfound & Hat & Hbefore)].
      * left. split; [exact Hnone|]. intros [|k] Hk; [exact Hstart|].
        cbn [drop]. apply Hall. cbn [length] in Hk. lia.
      * right. exists (S k). cbn [length drop]. repeat split; [lia| |exact Hat|].
        -- rewrite Hfound. lia.
        -- intros [|j] Hj; [exact Hstart|]. cbn [drop]. apply Hbefore. lia.
Qed.

(** A result of [find] that is not negative is the index of an occurrence. *)
Lemma find_occurs (s pat : bytes) (start : Z) :
  0 <= find s pat start -> occurs pat s.
Proof.
  unfold find. set (start' := if start <? 0 then Z.max 0 (start + len s) else start).
  destruct (Z.ltb_spec (len s) start') as [|Hin]; [lia|].
  destruct (find_at_spec pat (drop (Z.to_nat start') s) start')
    as [[Hnone _]|(k & _ & _ & Hat & _)]; [lia|].
  intros _. apply startswith_spec in Hat as (post & Hpost).
  rewrite drop_drop in Hpost.
  exists (take (Z.to_nat start' + k) s), post.
  now rewrite <- Hpost, take_drop.
Qed.

(** From the start of the string, [find] gives the first occurrence. *)
Lemma find_first_occurrence (s pat : bytes) :
  occurs pat s ->
  exists pre rest,
    s = pre ++ pat ++ rest
    /\ find s pat 0 = len pre
    /\ forall pre' rest', s = pre' ++ pat ++ rest' -> (length pre <= length pre')%nat.
Proof.
  intros (pre0 & post0 & Hocc). unfold find.
  destruct (Z.ltb_spec 0 0); [lia|].
  destruct (Z.ltb_spec (len s) 0) as [Hneg|_]; [unfold len in Hneg; lia|].
  change (Z.to_nat 0) with 0%nat. rewrite drop_0.
  destruct (find_at_spec pat s 0) as [[_ Hall]|(k & Hk & Hfound & Hat & Hbefore)].
  - exfalso. specialize (Hall (length pre0)).
    rewrite Hocc, drop_app_length in Hall.
    assert (Htrue : startswith (pat ++ post0) pat = true)
      by (apply startswith_spec; now exists post0).
    rewrite Hall in Htrue; [discriminate|]. rewrite length_app. lia.
  - apply startswith_spec in Hat as (rest & Hrest).
    exists (take k s), rest. split; [|split].
    + now rewrite <- Hrest, take_drop.
    + rewrite Hfound. unfold len. rewrite length_take. lia.
    + intros pre' rest' Hs. rewrite length_take.
      destruct (Nat.le_gt_cases k (length pre')) as [|Hlt]; [lia|].
      specialize (Hbefore _ Hlt). rewrite Hs, drop_app_length in Hbefore.
      assert (Htrue : startswith (pat ++ rest') pat = true)
        by (apply startswith_spec; now exists rest').
      congruence.
Qed.

Lemma first_found_none (patterns : list bytes) (rbuf : bytes) (last_index : Z) :
  (forall pat, In pat patterns -> ~ occurs pat rbuf) ->
  first_found patterns rbuf last_index = None.
Proof.
  induction patterns as [|pat patterns IH]; intros Hnone; [reflexivity|].
  cbn [first_found].
  destruct (Z.leb_spec 0 (find rbuf pat last_index)) as [Hfound|_].
  - exfalso. apply (Hnone pat); [now left|]. exact (find_occurs _ _ _ Hfound).
  - apply IH. intros pat' Hin. apply Hnone. now right.
Qed.

Lemma first_found_some (patterns : list bytes) (rbuf : bytes) :
  (exists pat, In pat patterns /\ occurs pat rbuf) ->
  exists pat, In pat patterns /\ first_found patterns rbuf 0 = Some (find rbuf pat 0, pat)
              /\ occurs pat rbuf.
Proof.
  induction patterns as [|pat0 patterns IH]; intros (pat & Hin & Hocc); [contradiction|].
  cbn [first_found].
  destruct (Z.leb_spec 0 (find rbuf pat0 0)) as [Hfound|Hnot].
  - exists pat0. split; [now left|]. split; [reflexivity|exact (find_occurs _ _ _ Hfound)].
  - destruct Hin as [->|Hin].
    + exfalso. destruct (find_first_occurrence _ _ Hocc) as (pre & rest & _ & Hfind & _).
      unfold len in Hfind. lia.
    + destruct IH as (pat' & Hin' & Hfirst & Hocc'); [now exists pat|].
      exists pat'. split; [now right|]. split; assumption.
Qed.

End Find.

Section ReadUntilBuffered.
Context {T : Type} `{Transport T}.
Import BufferedTransport.

(** X12. When one of the patterns occurs in the read buffer, [read_until] returns
    at once and does not touch the inner transport. It splits the buffer at
    the first occurrence of one of the patterns: the bytes before it, with
    the pattern when [include_pattern], are returned, and the bytes after it
    stay buffered. *)
Theorem read_until_match_in_buffer (fuel : nat) (patterns : list bytes)
    (raise_on_eof include_pattern : bool) (s : BufferedTransport.t T) :
  (exists pat, In pat patterns /\ occurs pat (_rbuf s)) ->
  exists pre pat rest,
    In pat patterns
    /\ _rbuf s = pre ++ pat ++ rest
    /\ (forall pre' rest', _rbuf s = pre' ++ pat ++ rest' -> (length pre <= length pre')%nat)
    /\ read_until (S fuel) patterns raise_on_eof include_pattern s
       = (Ret (if include_pattern then pre ++ pat else pre), set_rbuf rest s).
Proof.
  intros Hocc.
  destruct (first_found_some patterns (_rbuf s) Hocc) as (pat & Hin & Hfirst & Hpat).
  destruct (find_first_occurrence _ _ Hpat) as (pre & rest & Hsplit & Hfind & Hmin).
  exists pre, pat, rest. split; [exact Hin|]. split; [exact Hsplit|]. split; [exact Hmin|].
  unfold read_until. destruct patterns as [|p0 patterns]; [contradiction|].
  cbn [max_len read_until_loop]. unfold bind at 1. unfold get at 1.
  rewrite Hfirst, Hfind. unfold bind, put, ret.
  assert (Hpre : Z.to_nat (len pre) = length pre) by (unfold len; lia).
  assert (Hprepat : Z.to_nat (len pre + len pat) = length (pre ++ pat))
    by (unfold len; rewrite length_app; lia).
  assert (Htake : take (length pre) (_rbuf s) = pre)
    by (rewrite Hsplit; apply take_app_length).
  assert (Htake' : take (length (pre ++ pat)) (_rbuf s) = pre ++ pat)
    by (rewrite Hsplit, app_assoc; apply take_app_length).
  assert (Hdrop : drop (length (pre ++ pat)) (_rbuf s) = rest)
    by (rewrite Hsplit, app_assoc; apply drop_app_length).
  rewrite Hpre, Hprepat, Htake, Htake', Hdrop.
  now destruct include_pattern.
Qed.

(** With no patterns at all, [read_until] raises the [ValueError] of
    [max()] and reads nothing. *)
Lemma read_until_no_patterns (fuel : nat) (raise_on_eof include_pattern : bool)
    (s : BufferedTransport.t T) :
  read_until fuel [] raise_on_eof include_pattern s = (Raise ValueError, s).
Proof. reflexivity. Qed.

End ReadUntilBuffered.

Lemma read_until_match_in_buffer_witness :
  exists pre pat rest,
    In pat [str "XX"; str "YY"]
    /\ str "abYYcXXd" = pre ++ pat ++ rest
    /\ BufferedTransport.read_until 1 [str "XX"; str "YY"] false true
         (buffered_with (str "abYYcXXd") [str "more"])
       = (Ret (pre ++ pat), buffered_with rest [str "more"]).
Proof.
  assert (Hocc : exists pat, In pat [str "XX"; str "YY"]
                             /\ occurs pat (BufferedTransport._rbuf
                                  (buffered_with (str "abYYcXXd") [str "more"]))).
  { exists (str "YY"). split; [right; left; reflexivity|].
    exists (str "ab"), (str "cXXd"). reflexivity. }
  destruct (read_until_match_in_buffer 0 [str "XX"; str "YY"] false true _ Hocc)
    as (pre & pat & rest & Hin & Hsplit & _ & Hread).
  exists pre, pat, rest. split; [exact Hin|]. split; [exact Hsplit|exact Hread].
Defined.

Section ReadUntilStream.
Import BufferedTransport.

Lemma _fill_rbuf_progress (s : buffered) (count : Z) :
  well_formed s ->
  0 < count ->
  exists eof s1,
    _fill_rbuf count s = (Ret eof, s1)
    /\ stream s1 = stream s
    /\ well_formed s1
    /\ _rbufsize s1 = _rbufsize s
    /\ (if eof
        then RawTransport.incoming (transport s1) = []
        else (length (concat (RawTransport.incoming (transport s1)))
              < length (concat (RawTransport.incoming (transport s))))%nat).
Proof.
  intros (Hopen & Hchunks & Hsize) Hcount.
  destruct (raw_read_spec (transport s) count Hopen Hchunks Hcount)
    as (data & r' & Hread & Hconcat & Hopen' & Hchunks' & _ & _ & Hdata).
  rewrite _fill_rbuf_single_read.
  destruct (Z.ltb_spec 0 count); [|lia].
  unfold except_TransportClosed, on_transport.
  cbn [transport_read RawTransport_Transport]. rewrite Hread.
  destruct data as [|d data].
  - assert (Hinc : RawTransport.incoming (transport s) = []).
    { destruct (RawTransport.incoming (transport s)); [reflexivity|].
      exfalso. now apply Hdata. }
    exists true, (set_transport r' s). split; [reflexivity|].
    rewrite Hinc in Hconcat. cbn in Hconcat. symmetry in Hconcat.
    apply incoming_nil_of_concat in Hconcat; [|exact Hchunks'].
    unfold stream, well_formed. cbn. rewrite Hconcat, Hinc.
    split; [reflexivity|]. split; [|split; reflexivity].
    split; [exact Hopen'|]. split; [constructor|exact Hsize].
  - exists false, (set_rbuf (_rbuf s ++ d :: data) (set_transport r' s)).
    split; [reflexivity|]. unfold stream, well_formed. cbn.
    rewrite Hconcat, <- app_assoc. split; [reflexivity|].
    split; [split; [exact Hopen'|split; [exact Hchunks'|exact Hsize]]|].
    split; [reflexivity|]. rewrite length_app. cbn [length]. lia.
Qed.

Lemma occurs_app_r (pat s rest : bytes) : occurs pat s -> occurs pat (s ++ rest).
Proof.
  intros (pre & post & ->). exists pre, (post ++ rest). now rewrite <- !app_assoc.
Qed.

Lemma read_until_loop_no_match (patterns : list bytes) (longest_pattern : Z)
    (raise_on_eof include_pattern : bool) (n : nat) :
  forall (eof : bool) (last_index : Z) (s : buffered),
    well_formed s ->
    (eof = true -> RawTransport.incoming (transport s) = []) ->
    (forall pat, In pat patterns -> ~ occurs pat (stream s)) ->
    (length (concat (RawTransport.incoming (transport s))) + (if eof then 0 else 1) < n)%nat ->
    exists s',
      read_until_loop n patterns longest_pattern raise_on_eof include_pattern
        eof last_index s
      = (if raise_on_eof then Raise (EOFError None) else Ret (stream s), s')
      /\ RawTransport.incoming (transport s') = []
      /\ _rbuf s' = (if raise_on_eof then stream s else []).
Proof.
  induction n as [|n IH]; intros eof last_index s Hwf Heof Hnone Hfuel; [lia|].
  cbn [read_until_loop]. unfold bind at 1. unfold get at 1.
  rewrite first_found_none.
  2:{ intros pat Hin Hocc. apply (Hnone pat Hin). now apply occurs_app_r. }
  destruct eof.
  - specialize (Heof eq_refl).
    assert (Hstream : stream s = _rbuf s)
      by (unfold stream; rewrite Heof; apply app_nil_r).
    destruct raise_on_eof.
    + exists s. rewrite Hstream. split; [reflexivity|]. split; [exact Heof|reflexivity].
    + exists (set_rbuf [] s). rewrite Hstream. split; [reflexivity|].
      split; [exact Heof|reflexivity].
  - destruct (_fill_rbuf_progress s (_rbufsize s) Hwf)
      as (eof & s1 & Hfill & Hstream & Hwf1 & _ & Hprogress);
      [destruct Hwf as (_ & _ & ?); lia|].
    unfold bind at 1. rewrite Hfill. unfold bind at 1. unfold get at 1.
    destruct (IH eof (len (_rbuf s1) - longest_pattern) s1) as (s' & Hloop & Hinc & Hrbuf).
    + exact Hwf1.
    + intros ->. exact Hprogress.
    + now rewrite Hstream.
    + destruct eof; [rewrite Hprogress; cbn; lia|lia].
    + exists s'. rewrite Hloop, Hstream. split; [reflexivity|].
      split; [exact Hinc|]. now rewrite Hrbuf, Hstream.
Qed.

(** X13. When none of the patterns occurs in the stream, [read_until] reads the
    stream to its end: it then returns the whole stream and leaves the read
    buffer empty, or, with [raise_on_eof], raises [EOFError] and leaves the
    whole stream in the read buffer. *)
Theorem read_until_no_match (fuel : nat) (patterns : list bytes)
    (include_pattern : bool) (s : buffered) :
  well_formed s ->
  patterns <> [] ->
  (forall pat, In pat patterns -> ~ occurs pat (stream s)) ->
  (length (concat (RawTransport.incoming (transport s))) + 1 < fuel)%nat ->
  (exists s',
     read_until fuel patterns false include_pattern s = (Ret (stream s), s')
     /\ stream s' = [])
  /\ (exists s',
        read_until fuel patterns true include_pattern s = (Raise (EOFError None), s')
        /\ _rbuf s' = stream s
        /\ stream s' = stream s).
Proof.
  intros Hwf Hpatterns Hnone Hfuel. unfold read_until.
  destruct patterns as [|p patterns]; [contradiction|]. cbn [max_len].
  split.
  - destruct (read_until_loop_no_match (p :: patterns)
                (foldl (fun m q => Z.max m (len q)) (len p) patterns)
                false include_pattern fuel false 0 s Hwf)
      as (s' & Hloop & Hinc & Hrbuf); [discriminate|exact Hnone|exact Hfuel|].
    exists s'. split; [exact Hloop|]. unfold stream. now rewrite Hinc, Hrbuf.
  - destruct (read_until_loop_no_match (p :: patterns)
                (foldl (fun m q => Z.max m (len q)) (len p) patterns)
                true include_pattern fuel false 0 s Hwf)
      as (s' & Hloop & Hinc & Hrbuf); [discriminate|exact Hnone|exact Hfuel|].
    exists s'. split; [exact Hloop|]. split; [exact Hrbuf|].
    unfold stream at 1. rewrite Hinc, Hrbuf. apply app_nil_r.
Qed.

End ReadUntilStream.

Lemma read_until_no_match_witness :
  (exists s',
     BufferedTransport.read_until 6 [str "X"] false true (buffered_of [str "ab"; str "cd"])
     = (Ret (str "abcd"), s')
     /\ stream s' = [])
  /\ (exists s',
        BufferedTransport.read_until 6 [str "X"] true true (buffered_of [str "ab"; str "cd"])
        = (Raise (EOFError None), s')
        /\ BufferedTransport._rbuf s' = str "abcd"
        /\ stream s' = str "abcd").
Proof.
  assert (Hwf : well_formed (buffered_of [str "ab"; str "cd"])).
  { apply well_formed_buffered_of. repeat constructor; discriminate. }
  assert (Hpatterns : [str "X"] <> []) by discriminate.
  assert (Hnone : forall pat, In pat [str "X"] ->
                    ~ occurs pat (stream (buffered_of [str "ab"; str "cd"]))).
  { intros pat [<-|[]] Hocc.
    destruct (find_first_occurrence _ _ Hocc) as (pre & rest & _ & Hfind & _).
    assert (Hcomputed : BufferedTransport.find
              (stream (buffered_of [str "ab"; str "cd"])) (str "X") 0 = -1)
      by (vm_compute; reflexivity).
    rewrite Hcomputed in Hfind. unfold len in Hfind. lia. }
  assert (Hfuel : (length (concat (RawTransport.incoming (BufferedTransport.transport
             (buffered_of [str "ab"; str "cd"])))) + 1 < 6)%nat) by (vm_compute; lia).
  exact (read_until_no_match 6 [str "X"] true _ Hwf Hpatterns Hnone Hfuel).
Defined.

(** ** BoundTransport: quotas *)

Section QuotaAnyInner.
Context {T : Type} `{Transport T}.
Variable fuel : nat.
Import BoundTransport.

Lemma bound_read_step (count r : Z) (b b' : BoundTransport.t (BufferedTransport.t T)) data :
  0 <= count ->
  _rlength b = Some r ->
  0 <= r ->
  bound_read fuel count b = (Ret data, b') ->
  _rlength b' = Some (r - len data) /\ len data <= r /\ len data <= count.
Proof.
  intros Hcount Hquota Hr. unfold bound_read, read, bind at 1, get. rewrite Hquota.
  destruct (Z.leb_spec r 0).
  - intros [= <- <-]. rewrite Hquota. change (len (@nil byte)) with 0.
    split; [f_equal; lia|lia].
  - unfold bind, on_transport. cbn [transport_read BufferedTransport_Transport].
    destruct (BufferedTransport.read fuel (Z.min count r) (transport b))
      as [[data'|e|] x] eqn:Hread; try discriminate.
    intros [= <- <-]. cbn. rewrite Hquota. cbn.
    apply read_at_most_count in Hread; [|lia]. split; [reflexivity|lia].
Qed.

(** X14. Reads with counts that are not negative stay within the read quota,
    whatever the transport below the buffered one delivers: after any
    sequence of such reads the bytes returned are no more than the quota
    there was, and the quota is down by exactly their number. *)
Theorem bound_reads_within_quota (counts : list Z) :
  forall (r : Z) (b b' : BoundTransport.t (BufferedTransport.t T)) (datas : list bytes),
    Forall (fun count => 0 <= count) counts ->
    _rlength b = Some r ->
    0 <= r ->
    for_each (bound_read fuel) counts b = (Ret datas, b') ->
    remaining_read b' = Some (r - len (concat datas))
    /\ len (concat datas) <= r.
Proof.
  induction counts as [|count counts IH]; intros r b b' datas Hcounts Hquota Hr.
  - intros [= <- <-]. unfold remaining_read. cbn [concat]. rewrite Hquota.
    change (len (@nil byte)) with 0. split; [f_equal; lia|lia].
  - inversion Hcounts as [|? ? Hcount Hrest]; subst.
    cbn [for_each]. unfold bind at 1.
    destruct (bound_read fuel count b) as [[data|e|] b1] eqn:Hread; try discriminate.
    unfold bind at 1.
    destruct (for_each (bound_read fuel) counts b1) as [[datas'|e|] b2] eqn:Hreads;
      try discriminate.
    intros [= <- <-].
    destruct (bound_read_step count r b b1 data Hcount Hquota Hr Hread)
      as (Hquota1 & Hle & _).
    destruct (IH (r - len data) b1 b2 datas' Hrest Hquota1 ltac:(lia) Hreads)
      as (Hquota2 & Hle2).
    unfold remaining_read in *. cbn [concat]. rewrite len_app. rewrite Hquota2.
    split; [f_equal; lia|lia].
Qed.

End QuotaAnyInner.

Section QuotaStream.
Variable fuel : nat.
Import BoundTransport.

Lemma bound_read_stream (count r : Z) (b : bound) :
  well_formed (transport b) ->
  _rlength b = Some r ->
  0 < count ->
  exists data s',
    bound_read fuel count b = (Ret data, mk s' (Some (r - len data)) (_wlength b))
    /\ stream (transport b) = data ++ stream s'
    /\ well_formed s'
    /\ len data <= Z.max 0 (Z.min count r)
    /\ (data = [] -> stream (transport b) = [] \/ r <= 0).
Proof.
  intros Hwf Hquota Hcount. unfold bound_read, read, bind at 1, get. rewrite Hquota.
  destruct (Z.leb_spec r 0) as [Hzero|Hpos].
  - exists [], (transport b). change (len (@nil byte)) with 0. rewrite Z.sub_0_r.
    split; [unfold ret; destruct b; cbn in *; now subst|].
    split; [reflexivity|]. split; [exact Hwf|]. split; [lia|now right].
  - destruct (buffered_read_stream fuel (Z.min count r) (transport b) Hwf ltac:(lia))
      as (data & s' & Hread & Hstream & Hlen & Hempty & Hwf').
    exists data, s'. unfold bind, on_transport.
    cbn [transport_read BufferedTransport_Transport]. rewrite Hread.
    split; [cbn; now rewrite Hquota|]. split; [exact Hstream|]. split; [exact Hwf'|].
    split; [lia|]. intros Hnil. left. now apply Hempty.
Qed.

Lemma skip_loop_spec (n : nat) :
  forall (count acc r : Z) (b : bound),
    well_formed (transport b) ->
    _rlength b = Some r ->
    (Z.to_nat count < n)%nat ->
    let skipped := take (Z.to_nat (Z.min count r)) (stream (transport b)) in
    exists s',
      @skip_loop _ (BufferedTransport_Transport fuel) n count acc b
      = (Ret (acc + len skipped), mk s' (Some (r - len skipped)) (_wlength b))
      /\ stream s' = drop (Z.to_nat (Z.min count r)) (stream (transport b))
      /\ well_formed s'.
Proof.
  induction n as [|n IH]; intros count acc r b Hwf Hquota Hfuel skipped; [lia|].
  cbn [skip_loop]. subst skipped.
  destruct (Z.ltb_spec 0 count) as [Hcount|Hcount].
  - destruct (bound_read_stream count r b Hwf Hquota Hcount)
      as (data & s1 & Hread & Hstream & Hwf1 & Hlen & Hempty).
    unfold bind at 1. fold (bound_read fuel count b). rewrite Hread.
    destruct data as [|d data]; cbn [is_empty].
    + exists s1. cbn in Hstream.
      assert (Hnone : take (Z.to_nat (Z.min count r)) (stream (transport b)) = []).
      { destruct (Hempty eq_refl) as [->|Hr]; [apply take_nil|].
        replace (Z.to_nat (Z.min count r)) with 0%nat by lia. apply take_0. }
      rewrite Hnone. change (len (@nil byte)) with 0. rewrite Z.add_0_r.
      split; [reflexivity|]. split; [|exact Hwf1].
      destruct (Hempty eq_refl) as [Hs|Hr].
      * rewrite Hs, drop_nil. congruence.
      * replace (Z.to_nat (Z.min count r)) with 0%nat by lia. rewrite drop_0. congruence.
    + assert (Hd : 0 < len (d :: data)) by (unfold len; cbn [length]; lia).
      destruct (IH (count - len (d :: data)) (acc + len (d :: data)) (r - len (d :: data))
                  (mk s1 (Some (r - len (d :: data))) (_wlength b)) Hwf1 eq_refl)
        as (s' & Hloop & Hrest & Hwf'); [lia|].
      cbn [transport _wlength] in Hloop, Hrest.
      exists s'. rewrite Hloop, Hrest, Hstream.
      assert (Hn : Z.to_nat (Z.min (count - len (d :: data)) (r - len (d :: data)))
                   = (Z.to_nat (Z.min count r) - length (d :: data))%nat)
        by (unfold len in *; lia).
      assert (Hle : (length (d :: data) <= Z.to_nat (Z.min count r))%nat)
        by (unfold len in *; lia).
      rewrite Hn, (take_app_ge (d :: data)), (drop_app_ge (d :: data)) by exact Hle.
      rewrite len_app, Z.add_assoc, Z.sub_add_distr.
      split; [reflexivity|]. split; [reflexivity|exact Hwf'].
  - exists (transport b). replace (Z.to_nat (Z.min count r)) with 0%nat by lia.
    rewrite take_0, drop_0. change (len (@nil byte)) with 0.
    rewrite Z.add_0_r, Z.sub_0_r.
    split; [unfold ret; destruct b; cbn in *; now subst|].
    split; [reflexivity|exact Hwf].
Qed.

(** X15. [skip(count)] consumes from the stream as many bytes as the count, the
    quota and the stream allow, with the remaining quota for the count when
    it is negative; it returns their number and takes it off the quota. *)
Theorem bound_skip_stream (count r : Z) (b : bound) :
  well_formed (transport b) ->
  _rlength b = Some r ->
  let limit := Z.to_nat (Z.min (if count <? 0 then r else count) r) in
  let skipped := take limit (stream (transport b)) in
  exists s',
    bound_skip fuel count b
    = (Ret (len skipped), mk s' (Some (r - len skipped)) (_wlength b))
    /\ stream s' = drop limit (stream (transport b))
    /\ well_formed s'.
Proof.
  intros Hwf Hquota limit skipped. unfold bound_skip, skip, bind, get.
  rewrite Hquota.
  assert (Hloop : forall c, exists s',
            @skip_loop _ (BufferedTransport_Transport fuel) (S (Z.to_nat c)) c 0 b
            = (Ret (len (take (Z.to_nat (Z.min c r)) (stream (transport b)))),
               mk s' (Some (r - len (take (Z.to_nat (Z.min c r)) (stream (transport b)))))
                 (_wlength b))
            /\ stream s' = drop (Z.to_nat (Z.min c r)) (stream (transport b))
            /\ well_formed s').
  { intros c. destruct (skip_loop_spec (S (Z.to_nat c)) c 0 r b Hwf Hquota) as (s' & Hs);
      [lia|]. exists s'. exact Hs. }
  subst skipped limit. destruct (count <? 0); apply Hloop.
Qed.

(** X16. [close] with [skip_on_close] consumes what is left of the read quota, so
    that the stream below is at the first byte after the bound part: with a
    quota of [r] bytes that the stream holds, the stream is advanced by [r]
    bytes and the quota is zero. Without [close_underlying] the transport
    below stays open. *)
Theorem bound_close_skips_quota (r : Z) (b : bound) :
  well_formed (transport b) ->
  _rlength b = Some r ->
  0 <= r <= len (stream (transport b)) ->
  exists s',
    bound_close fuel true false b = (Ret tt, mk s' (Some 0) (_wlength b))
    /\ stream s' = drop (Z.to_nat r) (stream (transport b))
    /\ well_formed s'.
Proof.
  intros Hwf Hquota [Hlo Hhi].
  destruct (bound_skip_stream (-1) r b Hwf Hquota) as (s' & Hskip & Hrest & Hwf').
  cbn [Z.ltb Z.compare] in Hskip, Hrest. rewrite Z.min_id in Hskip, Hrest.
  assert (Hlen : len (take (Z.to_nat r) (stream (transport b))) = r).
  { unfold len in *. rewrite length_take. lia. }
  rewrite Hlen, Z.sub_diag in Hskip.
  exists s'. split; [|split; [exact Hrest|exact Hwf']].
  unfold bound_close, close, bind at 1, bind at 1.
  fold (bound_skip fuel (-1) b). rewrite Hskip. reflexivity.
Qed.

End QuotaStream.

Section WriteQuota.
Import BoundTransport.

(** X17. Writes stay within the write quota: a [write] of more bytes than the
    quota has left raises [EOFError] and writes nothing, and after any
    sequence of successful writes the bytes put on the wire are no more than
    the quota there was, which is down by exactly their number. *)
Theorem bound_writes_within_quota (datas : list bytes) :
  forall (w : Z) (b b' : BoundTransport.t RawTransport.t) (results : list unit),
    _wlength b = Some w ->
    0 <= w ->
    (forall data, w < len data -> write data b = (Raise (EOFError None), b))
    /\ (for_each write datas b = (Ret results, b') ->
        RawTransport.wire (transport b') = RawTransport.wire (transport b) ++ concat datas
        /\ remaining_write b' = Some (w - len (concat datas))
        /\ len (concat datas) <= w).
Proof.
  induction datas as [|data datas IH]; intros w b b' results Hquota Hw.
  - split.
    + intros data Hover. unfold write, bind, get. rewrite Hquota.
      destruct (Z.ltb_spec w (len data)); [reflexivity|lia].
    + intros [= <- <-]. unfold remaining_write. cbn [concat].
      rewrite app_nil_r, Hquota. change (len (@nil byte)) with 0.
      split; [reflexivity|]. split; [f_equal; lia|lia].
  - split.
    + intros data' Hover. unfold write, bind, get. rewrite Hquota.
      destruct (Z.ltb_spec w (len data')); [reflexivity|lia].
    + cbn [for_each]. unfold bind at 1.
      destruct (write data b) as [[[]|e|] b1] eqn:Hwrite; try discriminate.
      unfold bind at 1.
      destruct (for_each write datas b1) as [[results'|e|] b2] eqn:Hwrites; try discriminate.
      intros [= <- <-].
      unfold write, bind at 1, get in Hwrite. rewrite Hquota in Hwrite.
      destruct (Z.ltb_spec w (len data)) as [|Hfits]; [discriminate|].
      unfold bind, on_transport, modify in Hwrite.
      cbn [transport_write RawTransport_Transport] in Hwrite.
      unfold RawTransport.write in Hwrite.
      destruct (RawTransport.closed (transport b)); [discriminate|].
      cbn in Hwrite. rewrite Hquota in Hwrite. cbn [option_map] in Hwrite.
      injection Hwrite as Hb1.
      assert (Hquota1 : _wlength b1 = Some (w - len data)) by now rewrite <- Hb1.
      assert (Hwire1 : RawTransport.wire (transport b1)
                       = RawTransport.wire (transport b) ++ data) by now rewrite <- Hb1.
      destruct (IH (w - len data) b1 b2 results' Hquota1 ltac:(lia)) as [_ Hrest].
      destruct (Hrest Hwrites) as (Hwire & Hleft & Hle). rewrite Hwire1 in Hwire.
      unfold remaining_write in *.
      cbn [concat]. rewrite len_app, Hwire, Hleft, <- app_assoc.
      split; [reflexivity|]. split; [f_equal; lia|lia].
Qed.

End WriteQuota.

Lemma bound_reads_within_quota_witness :
  let b := BoundTransport.__init__ (buffered_of [str "abcdefghij"]) (Some 5) None in
  let b' := BoundTransport.mk (buffered_with (str "fghij") []) (Some 0) None in
  for_each (bound_read 0) [3; 4; 2] b = (Ret [str "abc"; str "de"; []], b')
  /\ BoundTransport.remaining_read b' = Some (5 - len (concat [str "abc"; str "de"; []]))
  /\ len (concat [str "abc"; str "de"; []]) <= 5.
Proof.
  intros b b'.
  assert (Hcounts : Forall (fun count => 0 <= count) [3; 4; 2])
    by (repeat constructor; lia).
  assert (Hquota : BoundTransport._rlength b = Some 5) by reflexivity.
  assert (Hr : 0 <= 5) by lia.
  assert (Hrun : for_each (bound_read 0) [3; 4; 2] b = (Ret [str "abc"; str "de"; []], b'))
    by (vm_compute; reflexivity).
  split; [exact Hrun|].
  exact (bound_reads_within_quota 0 [3; 4; 2] 5 b b' _ Hcounts Hquota Hr Hrun).
Defined.

Lemma bound_skip_stream_witness :
  let b := BoundTransport.mk (buffered_with (str "defghij") [str "NEXT"]) (Some 7) None in
  exists s',
    bound_skip 0 4 b = (Ret 4, BoundTransport.mk s' (Some 3) None)
    /\ stream s' = str "hijNEXT".
Proof.
  intros b.
  assert (Hwf : well_formed (BoundTransport.transport b)).
  { apply well_formed_buffered_with. repeat constructor; discriminate. }
  assert (Hquota : BoundTransport._rlength b = Some 7) by reflexivity.
  destruct (bound_skip_stream 0 4 7 b Hwf Hquota) as (s' & Hskip & Hrest & _).
  exists s'. split; [exact Hskip|exact Hrest].
Defined.

Lemma bound_close_skips_quota_witness :
  let b := BoundTransport.mk (buffered_with (str "defghij") [str "NEXT"]) (Some 7) None in
  exists s',
    bound_close 0 true false b = (Ret tt, BoundTransport.mk s' (Some 0) None)
    /\ stream s' = str "NEXT".
Proof.
  intros b.
  assert (Hwf : well_formed (BoundTransport.transport b)).
  { apply well_formed_buffered_with. repeat constructor; discriminate. }
  assert (Hquota : BoundTransport._rlength b = Some 7) by reflexivity.
  assert (Hr : 0 <= 7 <= len (stream (BoundTransport.transport b)))
    by (vm_compute; split; discriminate).
  destruct (bound_close_skips_quota 0 7 b Hwf Hquota Hr) as (s' & Hclose & Hrest & _).
  exists s'. split; [exact Hclose|exact Hrest].
Defined.

Lemma bound_writes_within_quota_witness :
  let b := BoundTransport.__init__ (raw_of []) None (Some 5) in
  let b' := BoundTransport.__init__ (RawTransport.mk [] (str "abcd") false) None (Some 1) in
  BoundTransport.write (str "toolong") b = (Raise (EOFError None), b)
  /\ for_each BoundTransport.write [str "ab"; str "cd"] b = (Ret [tt; tt], b')
  /\ RawTransport.wire (BoundTransport.transport b') = str "abcd"
  /\ BoundTransport.remaining_write b' = Some (5 - len (concat [str "ab"; str "cd"])).
Proof.
  intros b b'.
  assert (Hquota : BoundTransport._wlength b = Some 5) by reflexivity.
  assert (Hw : 0 <= 5) by lia.
  assert (Hrun : for_each BoundTransport.write [str "ab"; str "cd"] b = (Ret [tt; tt], b'))
    by (vm_compute; reflexivity).
  destruct (bound_writes_within_quota [str "ab"; str "cd"] 5 b b' [tt; tt] Hquota Hw)
    as [Hover Hruns].
  destruct (Hruns Hrun) as (Hwire & Hleft & _).
  split; [apply Hover; vm_compute; reflexivity|].
  split; [exact Hrun|]. split; [exact Hwire|exact Hleft].
Defined.

(** ** PacketTransport: sequences of packets, and truncated streams *)

Section PacketSequences.
Import BufferedTransport.

Lemma pack_frame (p header : bytes) :
  PacketTransport.HEADER.pack (len p) = Some header -> header ++ p = frame p.
Proof.
  unfold PacketTransport.HEADER.pack, frame.
  destruct ((0 <=? len p) && (len p <? 2 ^ 32)); [|discriminate].
  now intros [= <-].
Qed.

Lemma send_open (data : bytes) (p : PacketTransport.t RawTransport.t) :
  open_for_writing (PacketTransport.transport p) ->
  len data < 2 ^ 32 ->
  exists s',
    PacketTransport.send data true p
    = (Ret tt, PacketTransport.mk s' (PacketTransport.max_length p))
    /\ RawTransport.wire (transport s') = emitted (PacketTransport.transport p) ++ frame data
    /\ _wbuf s' = []
    /\ open_for_writing s'.
Proof.
  intros Hopen Hlen.
  destruct (pack_in_range (len data)) as (header & Hpack); [unfold len in *; lia|].
  destruct (write_spec header _ Hopen) as (s1 & Hw1 & He1 & Hopen1).
  destruct (write_spec data _ Hopen1) as (s2 & Hw2 & He2 & Hopen2).
  destruct (flush_spec _ Hopen2) as (s3 & Hf & Hwire & Hwbuf & Hopen3).
  exists s3. split; [|split; [|split; [exact Hwbuf|exact Hopen3]]].
  - unfold PacketTransport.send. rewrite Hpack.
    unfold bind, PacketTransport.on_transport.
    rewrite Hw1. cbn [PacketTransport.transport PacketTransport.set_transport].
    rewrite Hw2. cbn [PacketTransport.transport PacketTransport.set_transport].
    rewrite Hf. reflexivity.
  - rewrite Hwire, He2, He1, <- app_assoc. f_equal. exact (pack_frame _ _ Hpack).
Qed.

Lemma send_each (ps : list bytes) :
  forall sender : PacketTransport.t RawTransport.t,
    open_for_writing (PacketTransport.transport sender) ->
    Forall (fun p => len p < 2 ^ 32) ps ->
    exists s',
      for_each (fun p => PacketTransport.send p true) ps sender
      = (Ret (map (fun _ => tt) ps), PacketTransport.mk s' (PacketTransport.max_length sender))
      /\ emitted s' = emitted (PacketTransport.transport sender) ++ concat (map frame ps)
      /\ open_for_writing s'.
Proof.
  induction ps as [|p ps IH]; intros sender Hopen Hlens.
  - exists (PacketTransport.transport sender). cbn. rewrite app_nil_r.
    split; [now destruct sender|]. split; [reflexivity|exact Hopen].
  - inversion Hlens as [|? ? Hlen Hrest]; subst.
    destruct (send_open p sender Hopen Hlen) as (s1 & Hsend & Hwire & Hwbuf & Hopen1).
    destruct (IH (PacketTransport.mk s1 (PacketTransport.max_length sender)) Hopen1 Hrest)
      as (s' & Hsends & Hemitted & Hopen').
    exists s'. cbn [for_each map concat]. unfold bind at 1. rewrite Hsend.
    unfold bind at 1. rewrite Hsends. unfold ret.
    split; [reflexivity|]. split; [|exact Hopen'].
    rewrite Hemitted. cbn [PacketTransport.transport]. unfold emitted at 1.
    now rewrite Hwire, Hwbuf, app_nil_r, <- app_assoc.
Qed.

Lemma unpack_frame_header (p : bytes) :
  len p < 2 ^ 32 ->
  exists header, frame p = header ++ p /\ PacketTransport.HEADER.unpack header = Some (len p).
Proof.
  intros Hlen.
  destruct (pack_in_range (len p)) as (header & Hpack); [unfold len in *; lia|].
  exists header. split; [symmetry; exact (pack_frame _ _ Hpack)|].
  exact (proj1 (unpack_pack _ _ Hpack)).
Qed.

Lemma recv_each (fuel : nat) (max_length : Z) (ps : list bytes) :
  forall (s : buffered) (rest : bytes),
    well_formed s ->
    Forall (fun p => len p < 2 ^ 32 /\ (max_length <= 0 \/ len p <= max_length)) ps ->
    stream s = concat (map frame ps) ++ rest ->
    exists s',
      for_each (fun _ : unit => PacketTransport.recv fuel) (map (fun _ => tt) ps)
        (PacketTransport.mk s max_length)
      = (Ret ps, PacketTransport.mk s' max_length)
      /\ stream s' = rest
      /\ well_formed s'.
Proof.
  induction ps as [|p ps IH]; intros s rest Hwf Hfit Hstream.
  - exists s. cbn in *. auto.
  - inversion Hfit as [|? ? [Hlen Hmax] Hrest]; subst.
    destruct (unpack_frame_header p Hlen) as (header & Hframe & Hunpack).
    cbn [map concat] in Hstream. rewrite Hframe, <- !app_assoc in Hstream.
    destruct (recv_spec fuel (PacketTransport.mk s max_length) header
                (p ++ concat (map frame ps) ++ rest) (len p) Hwf Hstream Hunpack)
      as (s1 & Hrecv & Hrest1 & Hwf1).
    cbn [PacketTransport.max_length] in Hrecv, Hrest1.
    assert (Hfits : (0 <? max_length) && (max_length <? len p) = false).
    { apply andb_false_iff. rewrite !Z.ltb_ge. lia. }
    rewrite Hfits in Hrecv, Hrest1.
    assert (Hbody : (len (p ++ concat (map frame ps) ++ rest) <? len p) = false).
    { apply Z.ltb_ge. rewrite len_app.
      pose proof (len_nonneg (concat (map frame ps) ++ rest)). lia. }
    rewrite Hbody in Hrecv.
    unfold len in Hrecv, Hrest1. rewrite Nat2Z.id in Hrecv, Hrest1.
    rewrite take_app_length in Hrecv. rewrite drop_app_length in Hrest1.
    destruct (IH s1 rest Hwf1 Hrest Hrest1) as (s' & Hrecvs & Hrest' & Hwf').
    exists s'. cbn [map for_each]. unfold bind at 1. rewrite Hrecv.
    unfold bind at 1. rewrite Hrecvs. unfold ret.
    split; [reflexivity|]. split; [exact Hrest'|exact Hwf'].
Qed.

(** X18. Framing composes: successive [send]s hand the frames of the payloads to
    the byte stream one after the other, and as many [recv]s on a stream that
    starts with these frames return the payloads in the order they were
    sent and leave the stream behind the last frame. *)
Theorem packets_in_order (fuel : nat) (sender receiver : PacketTransport.t RawTransport.t)
    (ps : list bytes) (rest : bytes) :
  open_for_writing (PacketTransport.transport sender) ->
  Forall (fun p => len p < 2 ^ 32
                   /\ (PacketTransport.max_length receiver <= 0
                       \/ len p <= PacketTransport.max_length receiver)) ps ->
  well_formed (PacketTransport.transport receiver) ->
  stream (PacketTransport.transport receiver) = concat (map frame ps) ++ rest ->
  (exists sender',
     for_each (fun p => PacketTransport.send p true) ps sender
     = (Ret (map (fun _ => tt) ps), sender')
     /\ emitted (PacketTransport.transport sender')
        = emitted (PacketTransport.transport sender) ++ concat (map frame ps))
  /\ (exists receiver',
        for_each (fun _ : unit => PacketTransport.recv fuel) (map (fun _ => tt) ps) receiver
        = (Ret ps, receiver')
        /\ stream (PacketTransport.transport receiver') = rest).
Proof.
  intros Hopen Hfit Hwf Hstream. split.
  - destruct (send_each ps sender Hopen) as (s' & Hsends & Hemitted & _).
    { eapply Forall_impl; [exact Hfit|]. intros p [Hlen _]. exact Hlen. }
    eexists. split; [exact Hsends|exact Hemitted].
  - destruct receiver as [s max_length].
    cbn [PacketTransport.transport PacketTransport.max_length] in *.
    destruct (recv_each fuel max_length ps s rest Hwf Hfit Hstream)
      as (s' & Hrecvs & Hrest & _).
    eexists. split; [exact Hrecvs|exact Hrest].
Qed.

(** X19. A stream that ends inside a frame makes [recv] raise [EOFError]: with
    fewer than four bytes for the header the error carries those bytes, and
    with a body shorter than the header announces it carries the bytes of
    the body that were there; the stream is then at its end. *)
Theorem recv_truncated (fuel : nat) (p : PacketTransport.t RawTransport.t) :
  well_formed (PacketTransport.transport p) ->
  let max_length := PacketTransport.max_length p in
  (len (stream (PacketTransport.transport p)) < 4 ->
   exists s',
     PacketTransport.recv fuel p
     = (Raise (EOFError (Some (stream (PacketTransport.transport p)))),
        PacketTransport.mk s' max_length)
     /\ stream s' = [])
  /\ (forall header rest length,
        stream (PacketTransport.transport p) = header ++ rest ->
        PacketTransport.HEADER.unpack header = Some length ->
        ~ (0 < max_length /\ max_length < length) ->
        len rest < length ->
        exists s',
          PacketTransport.recv fuel p
          = (Raise (EOFError (Some rest)), PacketTransport.mk s' max_length)
          /\ stream s' = []).
Proof.
  intros Hwf max_length. split.
  - intros Hshort.
    destruct (read_exactly_spec fuel PacketTransport.HEADER.size true _ Hwf)
      as (s' & Hread & Hrest & _).
    exists s'. split.
    + unfold PacketTransport.recv, bind, PacketTransport.on_transport. rewrite Hread.
      unfold PacketTransport.HEADER.size.
      destruct (Z.ltb_spec (len (stream (PacketTransport.transport p))) 4); [|lia].
      reflexivity.
    + rewrite Hrest. apply drop_ge. unfold len, PacketTransport.HEADER.size in *. lia.
  - intros header rest length Hstream Hunpack Hfits Hshort.
    destruct (recv_spec fuel p header rest length Hwf Hstream Hunpack)
      as (s' & Hrecv & Hrest & _).
    fold max_length in Hrecv, Hrest.
    destruct ((0 <? max_length) && (max_length <? length)) eqn:Hlong.
    + exfalso. apply Hfits. apply andb_true_iff in Hlong. rewrite !Z.ltb_lt in Hlong.
      exact Hlong.
    + exists s'. destruct (Z.ltb_spec (len rest) length); [|lia].
      split; [exact Hrecv|]. rewrite Hrest. apply drop_ge. unfold len in *. lia.
Qed.

End PacketSequences.

Lemma packets_in_order_witness :
  let sender := packet_of [] (1024 * 1024) in
  let receiver :=
    packet_of [[x00; x00; x00; x02; x68]; [x69; x00; x00; x00]; [x00];
               [x00; x00; x00; x01; x21; x3f]]
      (1024 * 1024) in
  (exists sender',
     for_each (fun p => PacketTransport.send p true) [str "hi"; []; str "!"] sender
     = (Ret [tt; tt; tt], sender')
     /\ emitted (PacketTransport.transport sender')
        = [x00; x00; x00; x02; x68; x69; x00; x00; x00; x00; x00; x00; x00; x01; x21])
  /\ (exists receiver',
        for_each (fun _ : unit => PacketTransport.recv 0) [tt; tt; tt] receiver
        = (Ret [str "hi"; []; str "!"], receiver')
        /\ stream (PacketTransport.transport receiver') = [x3f]).
Proof.
  intros sender receiver.
  assert (Hopen : open_for_writing (PacketTransport.transport sender)) by reflexivity.
  assert (Hfit : Forall (fun p => len p < 2 ^ 32
                   /\ (PacketTransport.max_length receiver <= 0
                       \/ len p <= PacketTransport.max_length receiver))
                   [str "hi"; []; str "!"]).
  { repeat (constructor;
              [split; [vm_compute; reflexivity|right; vm_compute; discriminate]|]).
    constructor. }
  assert (Hwf : well_formed (PacketTransport.transport receiver)).
  { apply well_formed_buffered_of. repeat constructor; discriminate. }
  assert (Hstream : stream (PacketTransport.transport receiver)
                    = concat (map frame [str "hi"; []; str "!"]) ++ [x3f])
    by (vm_compute; reflexivity).
  exact (packets_in_order 0 sender receiver [str "hi"; []; str "!"] [x3f]
           Hopen Hfit Hwf Hstream).
Defined.

Lemma recv_truncated_witness :
  (exists s',
     PacketTransport.recv 0 (packet_of [[x00; x00]] 0)
     = (Raise (EOFError (Some [x00; x00])), PacketTransport.mk s' 0)
     /\ stream s' = [])
  /\ (exists s',
        PacketTransport.recv 0 (packet_of [[x00; x00; x00]; [x05; x68; x65]] 0)
        = (Raise (EOFError (Some [x68; x65])), PacketTransport.mk s' 0)
        /\ stream s' = []).
Proof.
  split.
  - assert (Hwf : well_formed (PacketTransport.transport (packet_of [[x00; x00]] 0))).
    { apply well_formed_buffered_of. repeat constructor; discriminate. }
    destruct (recv_truncated 0 _ Hwf) as [Hheader _].
    apply Hheader. vm_compute. reflexivity.
  - assert (Hwf : well_formed (PacketTransport.transport
                    (packet_of [[x00; x00; x00]; [x05; x68; x65]] 0))).
    { apply well_formed_buffered_of. repeat constructor; discriminate. }
    destruct (recv_truncated 0 _ Hwf) as [_ Hbody].
    assert (Hstream : stream (PacketTransport.transport
                        (packet_of [[x00; x00; x00]; [x05; x68; x65]] 0))
                      = [x00; x00; x00; x05] ++ [x68; x65]) by reflexivity.
    assert (Hunpack : PacketTransport.HEADER.unpack [x00; x00; x00; x05] = Some 5)
      by reflexivity.
    apply (Hbody _ _ 5 Hstream Hunpack).
    + cbn. lia.
    + vm_compute. reflexivity.
Defined.

Lemma open_capabilities_witness :
  exists trns,
    FilesSubsystem.open (fun path mode => Ret (path, mode)) (str "data.bin") (str "ab+")
    = Ret trns
    /\ FilesSubsystem.readable trns = true
    /\ FilesSubsystem.writable trns = true.
Proof.
  destruct (open_capabilities (fun path mode => Ret (path, mode))
              (str "data.bin") (str "ab+") _ eq_refl) as (trns & Hopen & Hr & Hw).
  exists trns. split; [exact Hopen|]. split; [exact Hr|exact Hw].
Defined.
